(** * nr1-kentik-network-monitoring: the data-transformation core

    A shallow embedding of the JavaScript of the two visualizations
    (the Kentik map and the Sankey diagram) and of the helpers they share:

    - [GreekPrefixing]  greekPrefixing.js  (magnitude scaling of byte counts)
    - [GetMapData]      kentik-map/getMapData.js  (static country lookup)
    - [KentikMap]       the map visualization: transformData, getDataForCountry,
                        getMapBounds
    - [Sankey]          the Sankey visualization: transformFacetData,
                        transformEventData

    JavaScript numbers that carry traffic volumes are IEEE-754 binary64 and
    are embedded as Rocq's primitive floats.  Geographic coordinates are only
    compared, folded with min/max and shifted by one; they are embedded as
    rationals.  A thrown exception is the [Throw] case of [Js.result]. *)

From Stdlib Require Import ZArith QArith Qminmax Lia Lqa Ascii.
From Stdlib Require Uint63.
From Stdlib Require Import PrimFloat FloatOps SpecFloat.
From Stdlib Require FloatAxioms.
From stdpp Require Import gmap strings pretty.

(* ===================================================================== *)
(** * JavaScript values, errors and plain objects                          *)
(* ===================================================================== *)

Module Js.

(** Exceptions the modelled code can raise. *)
Inductive error : Set := TypeError.

Inductive result (A : Type) : Type :=
| Ok (a : A)
| Throw (e : error).
Arguments Ok {A} a.
Arguments Throw {A} e.

Definition bind {A B} (m : result A) (k : A -> result B) : result B :=
  match m with
  | Ok a => k a
  | Throw e => Throw e
  end.

(** The values a facet or an event attribute takes in a query result:
    a string, [null], or nothing at all (reading a missing property
    gives [undefined]). *)
Inductive value : Set :=
| Undefined
| Null
| Str (s : string).

#[global] Instance value_eq_dec : EqDecision value.
Proof. solve_decision. Defined.

(** [`${v}`]: the ToString conversion of a template literal. *)
Definition toString (v : value) : string :=
  match v with
  | Undefined => "undefined"
  | Null => "null"
  | Str s => s
  end.

(** ToBoolean: of the values above only a non-empty string is truthy. *)
Definition truthy (v : value) : bool :=
  match v with
  | Str EmptyString => false
  | Str _ => true
  | _ => false
  end.

(** [v || d] where [d] is a string literal, read as a string. *)
Definition or_else (v : value) (d : string) : string :=
  if truthy v then toString v else d.

Definition ascii_toLowerCase (c : ascii) : ascii :=
  let n := Ascii.N_of_ascii c in
  if ((65 <=? n) && (n <=? 90))%N then Ascii.ascii_of_N (n + 32) else c.

Fixpoint string_toLowerCase (s : string) : string :=
  match s with
  | EmptyString => EmptyString
  | String c s' => String (ascii_toLowerCase c) (string_toLowerCase s')
  end.

(** [v.toLowerCase()]: a method call on [undefined] or [null] raises a
    TypeError; on a string it lower-cases (ASCII letters are modelled). *)
Definition toLowerCase (v : value) : result string :=
  match v with
  | Str s => Ok (string_toLowerCase s)
  | _ => Throw TypeError
  end.

(** A plain object used as a dictionary.  Own string keys are enumerated
    in insertion order; assigning to an existing key keeps its place.
    (Keys that look like array indices would be enumerated first; every
    key the modelled code builds contains a dash, so none does.) *)
Definition object (V : Type) : Type := list (string * V).

Fixpoint get {V} (k : string) (o : object V) : option V :=
  match o with
  | [] => None
  | (k', v) :: o' => if decide (k = k') then Some v else get k o'
  end.

Fixpoint set {V} (k : string) (v : V) (o : object V) : object V :=
  match o with
  | [] => [(k, v)]
  | (k', v') :: o' =>
      if decide (k = k') then (k, v) :: o' else (k', v') :: set k v o'
  end.

Definition keys {V} (o : object V) : list string := fst <$> o.

(** [Object.values(o)]. *)
Definition values {V} (o : object V) : list V := snd <$> o.

(** A [Set] of strings: insertion order, no duplicates. *)
Definition set_add (x : string) (s : list string) : list string :=
  if decide (x ∈ s) then s else s ++ [x].

(** [s.split('||')[0]]: the part of [s] before the first ["||"], all of
    [s] when there is none. *)
Fixpoint split_head (s : string) : string :=
  match s with
  | EmptyString => EmptyString
  | String c s' =>
      match c, s' with
      | "|"%char, String "|"%char _ => EmptyString
      | _, _ => String c (split_head s')
      end
  end.

End Js.

Notation "'let!' x ':=' m 'in' k" := (Js.bind m (fun x => k))
  (at level 10, x name, m at level 100, k at level 200).

(* ===================================================================== *)
(** * Query results handed over by the host platform                      *)
(* ===================================================================== *)

Module Nrql.

(** One entry of [metadata.groups]. *)
Record Group : Set := { type : string; name : string; value : Js.value }.

(** One [{x, y}] sample of an aggregated series; only [y] is read. *)
Record Sample : Set := { y : float }.

(** One raw event of an event query: its string-valued attributes by
    name, and the two numeric attributes the Sankey reads.  The two
    configured dimensions are taken to name string-valued attributes. *)
Record Event : Type :=
  { attributes : gmap string Js.value; in_bytes : float; sample_rate : float }.

(** [item[name]]: a missing property reads as [undefined]. *)
Definition attr (item : Event) (name : string) : Js.value :=
  default Js.Undefined (attributes item !! name).

(** One series of a result: [{ metadata: { groups }, data }]. *)
Record Series (D : Type) : Type := { groups : list Group; data : list D }.
Arguments groups {D} _.
Arguments data {D} _.

End Nrql.

(* ===================================================================== *)
(** * The Sankey visualization                                             *)
(* ===================================================================== *)

Module Sankey.

Record FlowNode : Set := { id : string; name : string }.
Record FlowLink : Set := { source : string; target : string; value : float }.
Record Graph : Set := { nodes : list FlowNode; links : list FlowLink }.

(** The props the transformers read. *)
Record Props : Set := { dimensionLeft : string; dimensionRight : string }.

(** ** transformFacetData *)

Definition facets (item : Nrql.Series Nrql.Sample) : list Nrql.Group :=
  filter (fun group => Nrql.type group = "facet") (Nrql.groups item).

(** [`${facet.value}||${facet.name}`] *)
Definition facetKey (facet : Nrql.Group) : string :=
  Js.toString (Nrql.value facet) +:+ "||" +:+ Nrql.name facet.

(** The body of the [forEach]: [facets[i]] and [item.data[0]] are
    [undefined] when the list is too short, and reading a property of
    [undefined] raises. *)
Definition facetStep (acc : list string * list FlowLink)
    (item : Nrql.Series Nrql.Sample) : Js.result (list string * list FlowLink) :=
  let '(nodes, links) := acc in
  let! f0 := from_option Js.Ok (Js.Throw Js.TypeError) (facets item !! 0%nat) in
  let facet0 := facetKey f0 in
  let! f1 := from_option Js.Ok (Js.Throw Js.TypeError) (facets item !! 1%nat) in
  let facet1 := facetKey f1 in
  let nodes := Js.set_add facet0 nodes in
  let nodes := Js.set_add facet1 nodes in
  let! d0 := from_option Js.Ok (Js.Throw Js.TypeError) (Nrql.data item !! 0%nat) in
  Js.Ok (nodes, links ++ [ {| source := facet0; target := facet1; value := Nrql.y d0 |} ]).

Fixpoint facetLoop (acc : list string * list FlowLink)
    (rawData : list (Nrql.Series Nrql.Sample))
    : Js.result (list string * list FlowLink) :=
  match rawData with
  | [] => Js.Ok acc
  | item :: rest => let! acc' := facetStep acc item in facetLoop acc' rest
  end.

Definition transformFacetData (rawData : list (Nrql.Series Nrql.Sample))
    : Js.result Graph :=
  let! acc := facetLoop ([], []) rawData in
  Js.Ok {| nodes := (fun node => {| id := node; name := Js.split_head node |}) <$> fst acc;
           links := snd acc |}.

(** ** transformEventData *)

Definition leftKey (p : Props) (item : Nrql.Event) : string :=
  Js.toString (Nrql.attr item (dimensionLeft p)) +:+ "-left".

Definition rightKey (p : Props) (item : Nrql.Event) : string :=
  Js.toString (Nrql.attr item (dimensionRight p)) +:+ "-right".

Definition linkKey (p : Props) (item : Nrql.Event) : string :=
  Js.toString (Nrql.attr item (dimensionLeft p)) +:+ "-" +:+
  Js.toString (Nrql.attr item (dimensionRight p)).

(** [item.in_bytes * item.sample_rate] *)
Definition weight (item : Nrql.Event) : float :=
  (Nrql.in_bytes item * Nrql.sample_rate item)%float.

(** [nodes[key] = nodes[key] || fresh] *)
Definition ensure {V} (key : string) (fresh : V) (o : Js.object V) : Js.object V :=
  Js.set key (default fresh (Js.get key o)) o.

(** The [nodes] object after one more event. *)
Definition eventNodes (p : Props) (nodes : Js.object FlowNode)
    (item : Nrql.Event) : Js.object FlowNode :=
  let nodes :=
    ensure (leftKey p item)
      {| id := leftKey p item;
         name := Js.or_else (Nrql.attr item (dimensionLeft p)) "--" |} nodes in
  ensure (rightKey p item)
    {| id := rightKey p item;
       name := Js.or_else (Nrql.attr item (dimensionRight p)) "--" |} nodes.

(** The [links] object after one more event: the entry is created with
    value 0 when the key is new, then its value is increased in place. *)
Definition eventLinks (p : Props) (links : Js.object FlowLink)
    (item : Nrql.Event) : Js.object FlowLink :=
  let fresh :=
    {| source := leftKey p item; target := rightKey p item; value := 0%float |} in
  let link := default fresh (Js.get (linkKey p item) links) in
  let links := Js.set (linkKey p item) link links in
  Js.set (linkKey p item)
    {| source := source link; target := target link;
       value := (value link + weight item)%float |} links.

Definition eventStep (p : Props)
    (acc : Js.object FlowNode * Js.object FlowLink) (item : Nrql.Event)
    : Js.object FlowNode * Js.object FlowLink :=
  (eventNodes p (fst acc) item, eventLinks p (snd acc) item).

(** The two objects when the [forEach] over [rawData[0].data] is over. *)
Definition eventLoop (p : Props) (events : list Nrql.Event)
    : Js.object FlowNode * Js.object FlowLink :=
  fold_left (eventStep p) events ([], []).

(** [rawData[0]] is [undefined] for an empty result, and reading its
    [data] raises. *)
Definition transformEventData (p : Props)
    (rawData : list (Nrql.Series Nrql.Event)) : Js.result Graph :=
  let! series := from_option Js.Ok (Js.Throw Js.TypeError) (rawData !! 0%nat) in
  let acc := eventLoop p (Nrql.data series) in
  Js.Ok {| nodes := Js.values (fst acc); links := Js.values (snd acc) |}.

End Sankey.

(* ===================================================================== *)
(** * greekPrefixing.js                                                    *)
(* ===================================================================== *)

Module GreekPrefixing.

(** An array length read as a number. *)
Definition number (n : nat) : float :=
  PrimFloat.of_uint63 (Uint63.of_Z (Z.of_nat n)).

(** [xs.reduce((sum, row) => sum + row, 0)] *)
Definition total (xs : list float) : float :=
  fold_left (fun sum row => (sum + row)%float) xs 0%float.

(** An array element is a number or [undefined]; the latter is dropped
    by the filter.  The square [d ** 2] is taken as [d * d]. *)
Definition calculateStdDeviation (data : list (option float)) : float * float :=
  let filteredData := omap (fun datum => datum) data in
  let avg := (total filteredData / number (length filteredData))%float in
  let diffs := map (fun row => ((row - avg) * (row - avg))%float) filteredData in
  let stdDev := PrimFloat.sqrt (total diffs / number (length diffs))%float in
  (avg, stdDev).

Definition nStdDeviations (data : list (option float)) (n : float) : float :=
  let '(avg, stdDev) := calculateStdDeviation data in
  (avg + stdDev * n)%float.

Record Prefix : Set := { value : string; magnitude : float }.

Definition PREFIXES : list Prefix :=
  [ {| value := "P"; magnitude := 1e15%float |};
    {| value := "T"; magnitude := 1e12%float |};
    {| value := "G"; magnitude := 1e9%float |};
    {| value := "M"; magnitude := 1e6%float |};
    {| value := "K"; magnitude := 1e3%float |} ].

(** [a > b] on numbers. *)
Definition gt (a b : float) : bool := (b <? a)%float.

(** [scaleMax] is [None] when the argument is left out or [undefined];
    the default 5 then applies. *)
Definition greekPrefix (data : list (option float)) (scaleMax : option float) : string :=
  let scaleMax := default 5%float scaleMax in
  let twoStdDeviations := nStdDeviations data 2%float in
  match List.find (fun pf => gt (twoStdDeviations / magnitude pf)%float scaleMax) PREFIXES with
  | Some prefix => value prefix
  | None => ""
  end.

Definition adjustByGreekPrefix (v : float) (prefix : string) : float :=
  match List.find (fun pf => bool_decide (value pf = prefix)) PREFIXES with
  | Some prefixFound => (v / magnitude prefixFound)%float
  | None => v
  end.

(** [parseFloat] of a number or of [undefined].  A number goes through
    its shortest round-trip decimal and comes back unchanged, except
    that the sign of a zero is lost; [undefined] parses to NaN. *)
Definition parseFloat (v : option float) : float :=
  match v with
  | None => PrimFloat.nan
  | Some x => if (x =? 0)%float then 0%float else x
  end.

(** The integer nearest to [m * 2^e], the larger one on a tie. *)
Definition nearest (m : positive) (e : Z) : Z :=
  if (0 <=? e)%Z then Z.pos m * 2 ^ e
  else (2 * Z.pos m + 2 ^ (- e)) / (2 * 2 ^ (- e)).

(** The first argument of [formatBytesGreek]: one value or an array. *)
Inductive input : Set :=
| Scalar (v : option float)
| Array (vs : list (option float)).

Section Formatting.

(** Number::toString of the host, which [toFixed] hands a magnitude of
    1e21 or more over to. *)
Variable numberToString : float -> string.

(** [x.toFixed()], that is, with zero fraction digits. *)
Definition toFixed (x : float) : string :=
  match Prim2SF x with
  | S754_nan => "NaN"
  | S754_infinity s => if s then "-Infinity" else "Infinity"
  | S754_zero _ => "0"
  | S754_finite s m e =>
      (if s then "-" else "") +:+
      (if (1e21 <=? PrimFloat.abs x)%float then numberToString (PrimFloat.abs x)
       else pretty (nearest m e))
  end.

(** [suffix] is [None] when left out (default ['B']). *)
Definition formatBytesGreek (v : input) (suffix : option string)
    (scaleMax : option float) : string :=
  let suffix := default "B" suffix in
  let prefix :=
    greekPrefix (match v with Array vs => vs | Scalar x => [x] end) scaleMax in
  let total :=
    match v with
    | Array vs => fold_left (fun sum row => (sum + parseFloat row)%float) vs 0%float
    | Scalar x => parseFloat x
    end in
  toFixed (adjustByGreekPrefix total prefix) +:+ " " +:+ prefix +:+ suffix.

End Formatting.

End GreekPrefixing.

(* ===================================================================== *)
(** * kentik-map/getMapData.js                                             *)
(* ===================================================================== *)

Module GetMapData.

Record Bound : Set := { minLon : Q; minLat : Q; maxLon : Q; maxLat : Q }.

(** One record of the static country table.  The geometry is carried
    along untouched and is left out; [bounds] is [None] while the record
    has no such property (or holds [undefined]). *)
Record CountryRecord : Set :=
  { id : string; name : string; bounds : option Bound }.

(** The two imported tables, [data/countryData.js] and
    [data/countryBounds.json].  They are shared by every call: the
    records of [countryData] are objects the lookup writes to, so the
    table is threaded through as state. *)
Record Tables : Type :=
  { countryData : gmap string CountryRecord;
    countryBounds : gmap string Bound }.

(** The result is [None] for the fresh empty object [{}], and otherwise
    the stored record itself (as it is after the write). *)
Definition getCountryMapData (countryCode : Js.value) (t : Tables)
    : Js.result (option CountryRecord * Tables) :=
  let! code := Js.toLowerCase countryCode in
  match (if Js.truthy countryCode then countryData t !! code else None) with
  | Some stored =>
      let data :=
        {| id := id stored; name := name stored;
           bounds := countryBounds t !! code |} in
      Js.Ok (Some data,
             {| countryData := <[code := data]> (countryData t);
                countryBounds := countryBounds t |})
  | None => Js.Ok (None, t)
  end.

End GetMapData.

(* ===================================================================== *)
(** * The Kentik map visualization                                         *)
(* ===================================================================== *)

Module KentikMap.

Definition Row : Type := Nrql.Series Nrql.Sample.

(** An entry of [dataMap]: [{ ...item, index, sum }]. *)
Record Aggregate : Type := { item : Row; index : nat; sum : float }.

(** What a component instance and the module it imports hold between
    calls: the static tables and the instance field [dataMap], which is
    initialised to [{}] once, when the instance is created. *)
Record State : Type :=
  { tables : GetMapData.Tables; dataMap : gmap string Aggregate }.

Definition initial (t : GetMapData.Tables) : State :=
  {| tables := t; dataMap := ∅ |}.

(** [countryGroup?.value] *)
Definition countryOf (row : Row) : Js.value :=
  match List.find (fun g => bool_decide (Nrql.type g = "facet")
                            && bool_decide (Nrql.name g = "country"))
                  (Nrql.groups row) with
  | Some countryGroup => Nrql.value countryGroup
  | None => Js.Undefined
  end.

(** [item.data.reduce((acc, dataItem) => acc + dataItem.y, 0)] *)
Definition sumOf (row : Row) : float :=
  fold_left (fun acc dataItem => (acc + Nrql.y dataItem)%float) (Nrql.data row) 0%float.

(** The callback of [data.map]. *)
Definition transformItem (i : nat) (row : Row) (st : State)
    : Js.result (option GetMapData.CountryRecord * State) :=
  let country := countryOf row in
  if Js.truthy country then
    let! r := GetMapData.getCountryMapData country (tables st) in
    Js.Ok (fst r,
           {| tables := snd r;
              dataMap := <[Js.toString country :=
                             {| item := row; index := i; sum := sumOf row |}]>
                         (dataMap st) |})
  else Js.Ok (None, st).

Fixpoint transformFrom (i : nat) (data : list Row) (st : State)
    : Js.result (list (option GetMapData.CountryRecord) * State) :=
  match data with
  | [] => Js.Ok ([], st)
  | row :: rest =>
      let! r := transformItem i row st in
      let! rs := transformFrom (S i) rest (snd r) in
      Js.Ok (fst r :: fst rs, snd rs)
  end.

Definition transformData (data : list Row) (st : State)
    : Js.result (list (option GetMapData.CountryRecord) * State) :=
  transformFrom 0 data st.

(** [this.dataMap[country] || {}]; [None] is the empty object. *)
Definition getDataForCountry (country : string) (st : State) : option Aggregate :=
  dataMap st !! country.

(** ** getMapBounds *)

(** The two corners handed to Leaflet's [LatLngBounds]. *)
Record LatLng : Set := { lng : Q; lat : Q }.
Record LatLngBounds : Set := { southWest : LatLng; northEast : LatLng }.

(** The four [let] variables, [undefined] until first assigned. *)
Record Extent : Set :=
  { maxLon : option Q; maxLat : option Q; minLon : option Q; minLat : option Q }.

Definition merge (f : Q -> Q -> Q) (acc : option Q) (curr : Q) : option Q :=
  Some (match acc with None => curr | Some a => f a curr end).

(** The body of [bounds.forEach]. *)
Definition extend (e : Extent) (bound : GetMapData.Bound) : Extent :=
  {| minLon := merge Qmin (minLon e) (GetMapData.minLon bound);
     minLat := merge Qmin (minLat e) (GetMapData.minLat bound);
     maxLon := merge Qmax (maxLon e) (GetMapData.maxLon bound);
     maxLat := merge Qmax (maxLat e) (GetMapData.maxLat bound) |}.

(** [data.filter(item => !!item.bounds).map(item => item.bounds)] *)
Definition boundsOf (data : list (option GetMapData.CountryRecord))
    : list GetMapData.Bound :=
  omap (fun item => item ≫= GetMapData.bounds) data.

(** [None] is [undefined].  The last branch is not reached: the loop
    has run at least once when the list is not empty (see
    [extent_defined]). *)
Definition getMapBounds (data : list (option GetMapData.CountryRecord))
    : option LatLngBounds :=
  let bounds := boundsOf data in
  if decide (length bounds = 0%nat) then None
  else
    let e := fold_left extend bounds
               {| maxLon := None; maxLat := None; minLon := None; minLat := None |} in
    match minLon e, minLat e, maxLon e, maxLat e with
    | Some minLon, Some minLat, Some maxLon, Some maxLat =>
        if Qeq_bool maxLat minLat && Qeq_bool maxLon minLon then
          Some {| southWest := {| lng := minLon - 1; lat := minLat - 1 |};
                  northEast := {| lng := maxLon + 1; lat := maxLat + 1 |} |}
        else
          Some {| southWest := {| lng := minLon; lat := minLat |};
                  northEast := {| lng := maxLon; lat := maxLat |} |}
    | _, _, _, _ => None
    end.

End KentikMap.

(* ===================================================================== *)
(** * Vocabulary of the statements and sample inputs                       *)
(* ===================================================================== *)

Module Spec.

(** The events of a batch whose link key is [k], in batch order. *)
Definition eventsOfKey (p : Sankey.Props) (k : string)
    (events : list Nrql.Event) : list Nrql.Event :=
  filter (fun item => Sankey.linkKey p item = k) events.

(** The events of a batch that carry the same two dimension values as
    [item], in batch order. *)
Definition eventsOfPair (p : Sankey.Props) (item : Nrql.Event)
    (events : list Nrql.Event) : list Nrql.Event :=
  filter (fun it =>
            Nrql.attr it (Sankey.dimensionLeft p) = Nrql.attr item (Sankey.dimensionLeft p)
            /\ Nrql.attr it (Sankey.dimensionRight p) = Nrql.attr item (Sankey.dimensionRight p))
         events.

(** [in_bytes * sample_rate] summed over the events in order, from 0. *)
Definition volume (events : list Nrql.Event) : float :=
  fold_left (fun acc item => (acc + Sankey.weight item)%float) events 0%float.

(** The smallest bound that holds two bounds. *)
Definition hull (a b : GetMapData.Bound) : GetMapData.Bound :=
  {| GetMapData.minLon := Qmin (GetMapData.minLon a) (GetMapData.minLon b);
     GetMapData.minLat := Qmin (GetMapData.minLat a) (GetMapData.minLat b);
     GetMapData.maxLon := Qmax (GetMapData.maxLon a) (GetMapData.maxLon b);
     GetMapData.maxLat := Qmax (GetMapData.maxLat a) (GetMapData.maxLat b) |}.

(** The entry of the [links] object under key [k] once the events have
    been read: none when no event has that key; otherwise its endpoints
    are those of the first such event and its value is their volume. *)
Definition linkOfKey (p : Sankey.Props) (k : string)
    (events : list Nrql.Event) : option Sankey.FlowLink :=
  match eventsOfKey p k events with
  | [] => None
  | first :: _ =>
      Some {| Sankey.source := Sankey.leftKey p first;
              Sankey.target := Sankey.rightKey p first;
              Sankey.value := volume (eventsOfKey p k events) |}
  end.

(** The four variables of [getMapBounds] once they hold a bound. *)
Definition extentOf (b : GetMapData.Bound) : KentikMap.Extent :=
  {| KentikMap.maxLon := Some (GetMapData.maxLon b);
     KentikMap.maxLat := Some (GetMapData.maxLat b);
     KentikMap.minLon := Some (GetMapData.minLon b);
     KentikMap.minLat := Some (GetMapData.minLat b) |}.

(** [outer] holds [inner]. *)
Definition encloses (outer inner : GetMapData.Bound) : Prop :=
  (GetMapData.minLon outer <= GetMapData.minLon inner
   /\ GetMapData.minLat outer <= GetMapData.minLat inner
   /\ GetMapData.maxLon inner <= GetMapData.maxLon outer
   /\ GetMapData.maxLat inner <= GetMapData.maxLat outer)%Q.

Definition corners (b : GetMapData.Bound) : KentikMap.LatLngBounds :=
  {| KentikMap.southWest :=
       {| KentikMap.lng := GetMapData.minLon b; KentikMap.lat := GetMapData.minLat b |};
     KentikMap.northEast :=
       {| KentikMap.lng := GetMapData.maxLon b; KentikMap.lat := GetMapData.maxLat b |} |}.

(** A bound grown by one unit on every side. *)
Definition grown (b : GetMapData.Bound) : KentikMap.LatLngBounds :=
  {| KentikMap.southWest :=
       {| KentikMap.lng := GetMapData.minLon b - 1; KentikMap.lat := GetMapData.minLat b - 1 |};
     KentikMap.northEast :=
       {| KentikMap.lng := GetMapData.maxLon b + 1; KentikMap.lat := GetMapData.maxLat b + 1 |} |}.

End Spec.

Module Inputs.

(** Two events whose dimension values differ and whose link keys are
    both ["a-b-c"]. *)
Definition dims : Sankey.Props :=
  {| Sankey.dimensionLeft := "src_geo"; Sankey.dimensionRight := "dst_geo" |}.

Definition event (l r : string) (b s : float) : Nrql.Event :=
  {| Nrql.attributes := {[ "src_geo" := Js.Str l; "dst_geo" := Js.Str r ]};
     Nrql.in_bytes := b; Nrql.sample_rate := s |}.

Definition batch (events : list Nrql.Event) : list (Nrql.Series Nrql.Event) :=
  [ {| Nrql.groups := []; Nrql.data := events |} ].

(** A row of a two-facet query. *)
Definition facetRow (a b : string) (v : float) : Nrql.Series Nrql.Sample :=
  {| Nrql.groups :=
       [ {| Nrql.type := "facet"; Nrql.name := "ip_address"; Nrql.value := Js.Str a |};
         {| Nrql.type := "facet"; Nrql.name := "country"; Nrql.value := Js.Str b |} ];
     Nrql.data := [ {| Nrql.y := v |} ] |}.

(** A row of the map query. *)
Definition countryRow (c : string) (v : float) : KentikMap.Row :=
  {| Nrql.groups :=
       [ {| Nrql.type := "facet"; Nrql.name := "country"; Nrql.value := Js.Str c |} ];
     Nrql.data := [ {| Nrql.y := v |} ] |}.

(** A one-country excerpt of the two static tables, as they are when
    the module is loaded: the record has no [bounds] yet. *)
Definition usBound : GetMapData.Bound :=
  {| GetMapData.minLon := -125; GetMapData.minLat := 24;
     GetMapData.maxLon := -66; GetMapData.maxLat := 49 |}.

Definition tables : GetMapData.Tables :=
  {| GetMapData.countryData :=
       {[ "us" := {| GetMapData.id := "USA"; GetMapData.name := "United States";
                     GetMapData.bounds := None |} ]};
     GetMapData.countryBounds := {[ "us" := usBound ]} |}.

Definition feature (b : GetMapData.Bound) : option GetMapData.CountryRecord :=
  Some {| GetMapData.id := "X"; GetMapData.name := "x"; GetMapData.bounds := Some b |}.

Definition box (minLon minLat maxLon maxLat : Q) : GetMapData.Bound :=
  {| GetMapData.minLon := minLon; GetMapData.minLat := minLat;
     GetMapData.maxLon := maxLon; GetMapData.maxLat := maxLat |}.

End Inputs.

(* ===================================================================== *)
(** * Vocabulary of the further statements                                 *)
(* ===================================================================== *)

Module MapSpec.

(** What the lookup answers for the lower-cased code [code], read off the
    two tables: the stored record with [bounds] taken from the bounds
    table, or nothing when the code has no record. *)
Definition recordOf (t : GetMapData.Tables) (code : string)
    : option GetMapData.CountryRecord :=
  (fun stored =>
     {| GetMapData.id := GetMapData.id stored;
        GetMapData.name := GetMapData.name stored;
        GetMapData.bounds := GetMapData.countryBounds t !! code |})
  <$> GetMapData.countryData t !! code.

(** The feature a row stands for: the empty object when the row has no
    truthy country, the answer of the lookup otherwise. *)
Definition featureOf (t : GetMapData.Tables) (row : KentikMap.Row)
    : option GetMapData.CountryRecord :=
  if Js.truthy (KentikMap.countryOf row)
  then recordOf t (Js.string_toLowerCase (Js.toString (KentikMap.countryOf row)))
  else None.

(** Two results of [getMapBounds] that denote the same rectangle. *)
Definition sameBounds (r r' : option KentikMap.LatLngBounds) : Prop :=
  match r, r' with
  | None, None => True
  | Some a, Some b =>
      (KentikMap.lng (KentikMap.southWest a) == KentikMap.lng (KentikMap.southWest b)
       /\ KentikMap.lat (KentikMap.southWest a) == KentikMap.lat (KentikMap.southWest b)
       /\ KentikMap.lng (KentikMap.northEast a) == KentikMap.lng (KentikMap.northEast b)
       /\ KentikMap.lat (KentikMap.northEast a) == KentikMap.lat (KentikMap.northEast b))%Q
  | _, _ => False
  end.

End MapSpec.

Module FlowSpec.

(** The elements of a list in the order of their first occurrence, every
    later repeat left out. *)
Fixpoint firsts (l : list string) : list string :=
  match l with
  | [] => []
  | x :: l' => x :: filter (fun y => y ≠ x) (firsts l')
  end.

(** Keyed entries in the order of the first occurrence of their key; a
    later entry under a key seen before is left out. *)
Fixpoint firstsBy {V} (l : list (string * V)) : list (string * V) :=
  match l with
  | [] => []
  | kv :: l' => kv :: filter (fun kv' => kv'.1 ≠ kv.1) (firstsBy l')
  end.

(** The two nodes an event asks for, the left one first, each under its
    id. *)
Definition endpointsOf (p : Sankey.Props) (item : Nrql.Event)
    : list (string * Sankey.FlowNode) :=
  [ (Sankey.leftKey p item,
     {| Sankey.id := Sankey.leftKey p item;
        Sankey.name := Js.or_else (Nrql.attr item (Sankey.dimensionLeft p)) "--" |});
    (Sankey.rightKey p item,
     {| Sankey.id := Sankey.rightKey p item;
        Sankey.name := Js.or_else (Nrql.attr item (Sankey.dimensionRight p)) "--" |}) ].

(** The two node identities a facet row asks for, those of its first two
    facet groups. *)
Definition facetIdsOf (item : Nrql.Series Nrql.Sample) : list string :=
  Sankey.facetKey <$> take 2 (Sankey.facets item).

(** A row the facet transformer can read: two facet groups and a sample. *)
Definition readable (item : Nrql.Series Nrql.Sample) : Prop :=
  2 ≤ length (Sankey.facets item) ∧ 1 ≤ length (Nrql.data item).

End FlowSpec.

Module NameSpec.

(** A string without the character ["|"]. *)
Fixpoint barFree (s : string) : bool :=
  match s with
  | EmptyString => true
  | String c s' => negb (Ascii.eqb c "|") && barFree s'
  end.

End NameSpec.

(* ===================================================================== *)
(** * What the two components render                                       *)
(* ===================================================================== *)

Module JsNumber.

(** ToBoolean of a number: false for both zeros and for NaN. *)
Definition truthy (x : float) : bool := negb (x =? 0)%float && (x =? x)%float.

(** [x || d] for a numeric prop that may be missing. *)
Definition or_else (x : option float) (d : float) : float :=
  match x with
  | Some v => if truthy v then v else d
  | None => d
  end.

End JsNumber.

Module SankeyView.

(** [s.includes(needle)]: [needle] occurs in [s] as a run of consecutive
    characters. *)
Fixpoint includes (s needle : string) : bool :=
  String.prefix needle s
  || match s with
     | EmptyString => false
     | String _ s' => includes s' needle
     end.

(** One entry of the [nrqlQueries] prop. *)
Record NrqlQuery : Set := { accountId : option float; query : Js.value }.

(** The props [render] reads; [nrqlQueries] is [None] when the prop is
    missing. *)
Record Props : Set :=
  { dimensionLeft : Js.value;
    dimensionRight : Js.value;
    nrqlQueries : option (list NrqlQuery);
    showTable : bool }.

(** [nrqlQueries[0].query] as the receiver of a string method: reading
    [0] of a missing array, [query] of a missing entry, or calling the
    method on something that is no string raises. *)
Definition queryText (props : Props) : Js.result string :=
  match nrqlQueries props with
  | None => Js.Throw Js.TypeError
  | Some queries =>
      match queries !! 0%nat with
      | None => Js.Throw Js.TypeError
      | Some q =>
          match query q with
          | Js.Str text => Js.Ok text
          | _ => Js.Throw Js.TypeError
          end
      end
  end.

(** [items.every(f)]: stops at the first item that fails. *)
Fixpoint every {A} (f : A -> Js.result bool) (items : list A) : Js.result bool :=
  match items with
  | [] => Js.Ok true
  | item :: rest =>
      let! ok := f item in
      if ok then every f rest else Js.Ok false
  end.

Definition validateNrql (props : Props) : Js.result bool :=
  every (fun item =>
           let! text := queryText props in
           Js.Ok (includes text (Js.toString item)))
        [dimensionLeft props; dimensionRight props; Js.Str "in_bytes"; Js.Str "sample_rate"].

(** The [&&] chain of [render], read as a boolean: each operand is
    evaluated only when those before it are truthy. *)
Definition nrqlQueryPropsAvailable (props : Props) : Js.result bool :=
  if negb (Js.truthy (dimensionLeft props)) then Js.Ok false
  else if negb (Js.truthy (dimensionRight props)) then Js.Ok false
  else match nrqlQueries props with
       | None => Js.Ok false
       | Some queries =>
           match queries !! 0%nat with
           | None => Js.Ok false
           | Some q =>
               if negb (from_option JsNumber.truthy false (accountId q)) then Js.Ok false
               else if negb (Js.truthy (query q)) then Js.Ok false
               else validateNrql props
           end
       end.

(** One element of a series' [data] as the two transformers read it: the
    facet transformer reads [y], the event transformer the attributes. *)
Record Datum : Type :=
  { y : float;
    attributes : gmap string Js.value;
    in_bytes : float;
    sample_rate : float }.

Definition asFacetRow (series : Nrql.Series Datum) : Nrql.Series Nrql.Sample :=
  {| Nrql.groups := Nrql.groups series;
     Nrql.data := (fun d => {| Nrql.y := y d |}) <$> Nrql.data series |}.

Definition asEventRow (series : Nrql.Series Datum) : Nrql.Series Nrql.Event :=
  {| Nrql.groups := Nrql.groups series;
     Nrql.data :=
       (fun d => {| Nrql.attributes := attributes d; Nrql.in_bytes := in_bytes d;
                    Nrql.sample_rate := sample_rate d |}) <$> Nrql.data series |}.

(** The two dimension props as property keys. *)
Definition dims (props : Props) : Sankey.Props :=
  {| Sankey.dimensionLeft := Js.toString (dimensionLeft props);
     Sankey.dimensionRight := Js.toString (dimensionRight props) |}.

Definition transformData (props : Props) (rawData : list (Nrql.Series Datum))
    : Js.result Sankey.Graph :=
  let! query := queryText props in
  if includes (Js.string_toLowerCase query) "facet"
  then Sankey.transformFacetData (asFacetRow <$> rawData)
  else Sankey.transformEventData (dims props) (asEventRow <$> rawData).

(** What the query component hands to its child function. *)
Record QueryState : Type :=
  { data : list (Nrql.Series Datum); loading : bool; error : option string }.

(** What [render] shows; the chart carries what [renderSankey] is called
    with, after [transformData]. *)
Inductive View : Type :=
| EmptyState
| Spinner
| NrqlQueryError (description : string)
| NoDataState
| Chart (transformedData : Sankey.Graph) (width height : float) (table : bool).

(** [render], with the size handed over by the sizer and the state
    handed over by the query component. *)
Definition render (props : Props) (width height : float) (q : QueryState)
    : Js.result View :=
  let! available := nrqlQueryPropsAvailable props in
  if negb available then Js.Ok EmptyState
  else if loading q then Js.Ok Spinner
  else match error q with
       | Some message => Js.Ok (NrqlQueryError message)
       | None =>
           if decide (length (data q) = 0%nat) then Js.Ok NoDataState
           else
             let! transformedData := transformData props (data q) in
             Js.Ok (Chart transformedData width
                      (if showTable props then (height - 196)%float else height)
                      (showTable props))
       end.

End SankeyView.

Module MapView.

(** The style of a feature. *)
Record Style : Set :=
  { color : string; weight : float; fillColor : option string; fillOpacity : float }.

(** ToBoolean of what [getDataForCountry] gives: an entry and the empty
    object ([None]) are both objects, hence truthy. *)
Definition truthyObject {A} (o : option A) : bool := true.

(** [handleStyleFeature]; [colors] is the palette of [../colors].  The
    result is [None] for the empty object.  [colors[data.index]] is
    [undefined] without an entry and beyond the palette. *)
Definition handleStyleFeature (colors : list string)
    (feature : GetMapData.CountryRecord) (st : KentikMap.State) : option Style :=
  let data := KentikMap.getDataForCountry (GetMapData.id feature) st in
  if truthyObject data then
    Some {| color := "#000"; weight := 1%float;
            fillColor := (KentikMap.index <$> data) ≫= (fun i => colors !! i);
            fillOpacity := 0.75%float |}
  else None.

(** The props [renderMap] reads. *)
Record Props : Set :=
  { autoZoom : bool;
    initialLat : option float;
    initialLng : option float;
    initialZoom : option float }.

(** The props of the map element and the data of its layer. *)
Record MapElement : Set :=
  { center : float * float;
    zoom : float;
    bounds : option KentikMap.LatLngBounds;
    geoJSON : list (option GetMapData.CountryRecord) }.

(** [renderMap], up to the map and its layer (the popup hangs off the
    hover state). *)
Definition renderMap (props : Props) (data : list KentikMap.Row) (st : KentikMap.State)
    : Js.result (MapElement * KentikMap.State) :=
  let initialLat := JsNumber.or_else (initialLat props) 30%float in
  let initialLng := JsNumber.or_else (initialLng props) (-40)%float in
  let initialZoom := JsNumber.or_else (initialZoom props) 3%float in
  let! r := KentikMap.transformData data st in
  Js.Ok ({| center := (initialLat, initialLng);
            zoom := initialZoom;
            bounds := if autoZoom props then KentikMap.getMapBounds (fst r) else None;
            geoJSON := fst r |},
         snd r).

(** The props [render] reads, beside those [renderMap] reads. *)
Record ScreenProps : Set :=
  { accountId : option float;
    trafficDirection : Js.value;
    showTable : bool;
    mapProps : Props }.

(** [this.props.trafficDirection || defaultProps.trafficDirection] *)
Definition trafficDirectionOf (props : ScreenProps) : string :=
  Js.or_else (trafficDirection props) "dst_geo".

(** The template literal of [render]. *)
Definition query (props : ScreenProps) : string :=
  "SELECT max(sentByteRate) AS 'bps' FROM (FROM KFlow SELECT rate(sum(in_bytes)*8, 1 second) AS 'sentByteRate' FACET "
  +:+ trafficDirectionOf props +:+ " WHERE " +:+ trafficDirectionOf props
  +:+ " IS NOT NULL) FACET " +:+ trafficDirectionOf props
  +:+ " as 'country' WHERE sentByteRate > 0 SINCE 1 day ago".

(** [!!accountId && !!trafficDirection] *)
Definition nrqlQueryPropsAvailable (props : ScreenProps) : bool :=
  from_option JsNumber.truthy false (accountId props)
  && Js.truthy (Js.Str (trafficDirectionOf props)).

(** What the query component hands to its child function. *)
Record QueryState : Type :=
  { data : list KentikMap.Row; loading : bool; error : option string }.

(** What the child function of the query component shows. *)
Inductive Child : Set :=
| Spinner
| ErrorState
| MapCard (height inner : float) (map : MapElement) (table : bool).

(** What [render] shows: the empty state, or the query component with
    its query text and what its child function shows. *)
Inductive View : Set :=
| EmptyState
| Query (text : string) (child : Child).

(** [render], with the height handed over by the sizer and the state
    handed over by the query component. *)
Definition render (props : ScreenProps) (height : float) (q : QueryState)
    (st : KentikMap.State) : Js.result (View * KentikMap.State) :=
  if negb (nrqlQueryPropsAvailable props) then Js.Ok (EmptyState, st)
  else if loading q then Js.Ok (Query (query props) Spinner, st)
  else match error q with
       | Some _ => Js.Ok (Query (query props) ErrorState, st)
       | None =>
           let! r := renderMap (mapProps props) (data q) st in
           Js.Ok (Query (query props)
                    (MapCard height
                       (if showTable props then (height - 176)%float else height)
                       (fst r) (showTable props)),
                  snd r)
       end.

End MapView.

Module IndexSpec.

(** The entry [dataMap] gets under [key] from the rows of a batch that
    starts at position [i]: the one of the last row whose truthy country
    is [key], if there is such a row. *)
Fixpoint entryOf (i : nat) (data : list KentikMap.Row) (key : string)
    : option KentikMap.Aggregate :=
  match data with
  | [] => None
  | row :: rest =>
      match entryOf (S i) rest key with
      | Some entry => Some entry
      | None =>
          if Js.truthy (KentikMap.countryOf row)
             && bool_decide (Js.toString (KentikMap.countryOf row) = key)
          then Some {| KentikMap.item := row; KentikMap.index := i;
                       KentikMap.sum := KentikMap.sumOf row |}
          else None
      end
  end.

(** The record stored under [code], if any, already has the bound of
    the bounds table. *)
Definition settled (t : GetMapData.Tables) (code : string) : Prop :=
  ∀ stored, GetMapData.countryData t !! code = Some stored →
            GetMapData.bounds stored = GetMapData.countryBounds t !! code.

(** The same for the code a row is looked up by. *)
Definition settledFor (t : GetMapData.Tables) (row : KentikMap.Row) : Prop :=
  Js.truthy (KentikMap.countryOf row) = true →
  settled t (Js.string_toLowerCase (Js.toString (KentikMap.countryOf row))).

End IndexSpec.

Module TextSpec.

(** [needle] occurs in [text]. *)
Definition occursIn (needle text : string) : Prop :=
  ∃ before after, text = before +:+ needle +:+ after.

End TextSpec.

(* ===================================================================== *)
(** * Facts about plain objects and strings                                *)
(* ===================================================================== *)

Section ObjectFacts.

Context {V : Type}.
Implicit Types (o : Js.object V) (k : string) (v : V).

Lemma get_set_eq k v o : Js.get k (Js.set k v o) = Some v.
Proof.
  induction o as [|[k' v'] o IH]; simpl.
  - by rewrite decide_True.
  - destruct (decide (k = k')) as [->|Hne]; simpl.
    + by rewrite decide_True.
    + by rewrite decide_False.
Qed.

Lemma get_set_ne k k' v o : k ≠ k' → Js.get k' (Js.set k v o) = Js.get k' o.
Proof.
  intros Hne. induction o as [|[k0 v0] o IH]; simpl.
  - by rewrite decide_False.
  - destruct (decide (k = k0)) as [->|Hk]; simpl.
    + by rewrite !decide_False.
    + by rewrite IH.
Qed.

Lemma get_None k o : Js.get k o = None ↔ k ∉ Js.keys o.
Proof.
  unfold Js.keys. induction o as [|[k' v'] o IH]; simpl.
  - split; [intros _; apply not_elem_of_nil | done].
  - rewrite not_elem_of_cons. destruct (decide (k = k')) as [->|Hne].
    + split; [discriminate | by intros [? _]].
    + rewrite IH. split; [by intros ? | by intros [_ ?]].
Qed.

Lemma get_Some_keys k v o : Js.get k o = Some v → k ∈ Js.keys o.
Proof.
  intros H. destruct (decide (k ∈ Js.keys o)) as [|Hn]; [done|].
  apply get_None in Hn. congruence.
Qed.

Lemma get_Some_values k v o : Js.get k o = Some v → v ∈ Js.values o.
Proof.
  unfold Js.values. induction o as [|[k' v'] o IH]; simpl; [done|].
  destruct (decide (k = k')).
  - intros [= ->]. left.
  - intros H. right. by apply IH.
Qed.

(** Assigning to a key that is there keeps the order of the keys;
    assigning to a new key appends it. *)
Lemma set_present k v v' o :
  Js.get k o = Some v' → Js.keys (Js.set k v o) = Js.keys o.
Proof.
  induction o as [|[k0 v0] o IH]; simpl; [done|].
  destruct (decide (k = k0)) as [->|Hk]; [reflexivity|].
  intros H. unfold Js.keys in *. simpl. f_equal. by apply IH.
Qed.

Lemma set_absent k v o : Js.get k o = None → Js.set k v o = o ++ [(k, v)].
Proof.
  induction o as [|[k0 v0] o IH]; simpl; [done|].
  destruct (decide (k = k0)); [done|]. intros H. by rewrite IH.
Qed.

Lemma set_same k v o : Js.get k o = Some v → Js.set k v o = o.
Proof.
  induction o as [|[k0 v0] o IH]; simpl; [done|].
  destruct (decide (k = k0)) as [->|Hk].
  - by intros [= ->].
  - intros H. by rewrite IH.
Qed.

Lemma NoDup_keys_set k v o : NoDup (Js.keys o) → NoDup (Js.keys (Js.set k v o)).
Proof.
  intros Hnd. destruct (Js.get k o) as [v'|] eqn:E.
  - by rewrite (set_present _ _ v').
  - rewrite set_absent by done. unfold Js.keys in *. rewrite fmap_app. simpl.
    apply NoDup_app. split_and!; [done | | apply NoDup_singleton].
    intros x Hx ->%list_elem_of_singleton. by apply get_None in E.
Qed.

Lemma elem_of_keys_set k k' v o :
  k' ∈ Js.keys (Js.set k v o) ↔ k' = k ∨ k' ∈ Js.keys o.
Proof.
  destruct (decide (k' = k)) as [->|Hne].
  - split; [by left|]. intros _. eapply get_Some_keys, get_set_eq.
  - split.
    + intros H. right. destruct (decide (k' ∈ Js.keys o)) as [|Hn]; [done|].
      apply get_None in Hn. rewrite <- (get_set_ne k k' v) in Hn by done.
      by apply get_None in Hn.
    + intros [|H]; [done|]. destruct (decide (k' ∈ Js.keys (Js.set k v o))) as [|Hn]; [done|].
      apply get_None in Hn. rewrite get_set_ne in Hn by done.
      by apply get_None in Hn.
Qed.

End ObjectFacts.

Lemma string_length_app (s t : string) :
  String.length (s +:+ t) = (String.length s + String.length t)%nat.
Proof. induction s as [|c s IH]; simpl; [done | by rewrite IH]. Qed.

(** No string ends both in ["-left"] and in ["-right"]. *)
Lemma left_right_suffix_differ (s s' : string) : s +:+ "-left" ≠ s' +:+ "-right".
Proof.
  revert s'. induction s as [|c s IH]; intros [|c' s']; simpl.
  - discriminate.
  - intros [= _ H]. apply (f_equal String.length) in H.
    rewrite string_length_app in H. simpl in H. lia.
  - intros [= _ H]. destruct s as [|c0 s]; [discriminate|].
    apply (f_equal String.length) in H. simpl in H.
    rewrite string_length_app in H. simpl in H. lia.
  - intros [= _ H]. by apply IH in H.
Qed.

(* ===================================================================== *)
(** * The Sankey visualization, event mode                                 *)
(* ===================================================================== *)

Section EventMode.

Variable p : Sankey.Props.

Lemma eventLoop_split (events : list Nrql.Event) nodes links :
  fold_left (Sankey.eventStep p) events (nodes, links) =
  (fold_left (Sankey.eventNodes p) events nodes,
   fold_left (Sankey.eventLinks p) events links).
Proof.
  revert nodes links. induction events as [|item events IH]; intros; simpl; [done|].
  apply IH.
Qed.

Lemma eventsOfKey_snoc k (done : list Nrql.Event) item :
  Spec.eventsOfKey p k (done ++ [item]) =
  Spec.eventsOfKey p k done ++ (if decide (Sankey.linkKey p item = k) then [item] else []).
Proof.
  unfold Spec.eventsOfKey. rewrite filter_app. f_equal.
Qed.

Lemma volume_snoc (events : list Nrql.Event) item :
  Spec.volume (events ++ [item]) = (Spec.volume events + Sankey.weight item)%float.
Proof. unfold Spec.volume. by rewrite fold_left_app. Qed.

(** One step of the loop keeps the [links] object in line with
    [Spec.linkOfKey]. *)
Lemma eventLinks_step links (done : list Nrql.Event) item :
  (∀ k, Js.get k links = Spec.linkOfKey p k done) →
  ∀ k, Js.get k (Sankey.eventLinks p links item) = Spec.linkOfKey p k (done ++ [item]).
Proof.
  intros Inv k. unfold Sankey.eventLinks.
  destruct (decide (Sankey.linkKey p item = k)) as [<-|Hne].
  - rewrite get_set_eq, Inv. unfold Spec.linkOfKey.
    rewrite eventsOfKey_snoc, decide_True by done.
    destruct (Spec.eventsOfKey p (Sankey.linkKey p item) done) as [|first others]; simpl.
    + reflexivity.
    + do 2 f_equal. symmetry. apply (volume_snoc (first :: others)).
  - rewrite !get_set_ne, Inv by done. unfold Spec.linkOfKey.
    by rewrite eventsOfKey_snoc, decide_False, app_nil_r.
Qed.

Lemma eventLinks_loop (events done : list Nrql.Event) links :
  (∀ k, Js.get k links = Spec.linkOfKey p k done) →
  ∀ k, Js.get k (fold_left (Sankey.eventLinks p) events links)
       = Spec.linkOfKey p k (done ++ events).
Proof.
  revert done links. induction events as [|item events IH]; intros done links Inv k; simpl.
  - rewrite app_nil_r. apply Inv.
  - rewrite cons_middle, app_assoc. apply IH. by apply eventLinks_step.
Qed.

Lemma eventLinks_NoDup (events : list Nrql.Event) links :
  NoDup (Js.keys links) →
  NoDup (Js.keys (fold_left (Sankey.eventLinks p) events links)).
Proof.
  revert links. induction events as [|item events IH]; intros links Hnd; simpl; [done|].
  apply IH. unfold Sankey.eventLinks. by do 2 apply NoDup_keys_set.
Qed.

(** What the loop leaves in [links], key by key. *)
Lemma eventLoop_links (events : list Nrql.Event) k :
  Js.get k (snd (Sankey.eventLoop p events)) = Spec.linkOfKey p k events.
Proof.
  unfold Sankey.eventLoop. rewrite eventLoop_split. simpl.
  by apply (eventLinks_loop events []).
Qed.

Lemma linkOfKey_is_Some (events : list Nrql.Event) k :
  is_Some (Spec.linkOfKey p k events) ↔
  ∃ item, item ∈ events ∧ Sankey.linkKey p item = k.
Proof.
  unfold Spec.linkOfKey.
  destruct (Spec.eventsOfKey p k events) as [|first others] eqn:E.
  - split; [by intros [? ?]|]. intros (item & Hin & Hk).
    assert (item ∈ Spec.eventsOfKey p k events) as Hf
      by (by apply list_elem_of_filter).
    rewrite E in Hf. by apply elem_of_nil in Hf.
  - split; [|by eauto]. intros _. exists first.
    assert (first ∈ Spec.eventsOfKey p k events) as Hf by (rewrite E; left).
    apply list_elem_of_filter in Hf. by destruct Hf.
Qed.

Lemma eventLoop_link_keys (events : list Nrql.Event) k :
  k ∈ Js.keys (snd (Sankey.eventLoop p events)) ↔
  ∃ item, item ∈ events ∧ Sankey.linkKey p item = k.
Proof.
  rewrite <- linkOfKey_is_Some, <- eventLoop_links.
  destruct (Js.get k (snd (Sankey.eventLoop p events))) as [link|] eqn:E.
  - split; [by eauto|]. intros _. by eapply get_Some_keys.
  - split; [|by intros [? ?]]. intros Hin. by apply get_None in E.
Qed.

Lemma eventLoop_links_NoDup (events : list Nrql.Event) :
  NoDup (Js.keys (snd (Sankey.eventLoop p events))).
Proof.
  unfold Sankey.eventLoop. rewrite eventLoop_split. simpl.
  apply eventLinks_NoDup. constructor.
Qed.

End EventMode.

Section EventNodes.

Variable p : Sankey.Props.

Lemma ensure_ids k fresh (o : Js.object Sankey.FlowNode) :
  Sankey.id fresh = k →
  Forall (fun kn => Sankey.id kn.2 = kn.1) o →
  Forall (fun kn => Sankey.id kn.2 = kn.1) (Sankey.ensure k fresh o).
Proof.
  intros Hid Ho. unfold Sankey.ensure. destruct (Js.get k o) as [n|] eqn:E; simpl.
  - by rewrite set_same.
  - rewrite set_absent by done. apply Forall_app. split; [done|]. by constructor.
Qed.

Lemma ids_of_values (o : Js.object Sankey.FlowNode) :
  Forall (fun kn => Sankey.id kn.2 = kn.1) o →
  Sankey.id <$> Js.values o = Js.keys o.
Proof.
  unfold Js.values, Js.keys. induction 1 as [|[k n] o Hkn _ IH]; [done|].
  rewrite !fmap_cons. simpl in *. by f_equal.
Qed.

Lemma eventNodes_step nodes item :
  Forall (fun kn => Sankey.id kn.2 = kn.1) nodes →
  NoDup (Js.keys nodes) →
  Forall (fun kn => Sankey.id kn.2 = kn.1) (Sankey.eventNodes p nodes item)
  ∧ NoDup (Js.keys (Sankey.eventNodes p nodes item))
  ∧ ∀ k, k ∈ Js.keys (Sankey.eventNodes p nodes item) ↔
         k = Sankey.rightKey p item ∨ k = Sankey.leftKey p item ∨ k ∈ Js.keys nodes.
Proof.
  intros Hids Hnd. unfold Sankey.eventNodes. split_and!.
  - by do 2 (apply ensure_ids; [done|]).
  - unfold Sankey.ensure. by do 2 apply NoDup_keys_set.
  - intros k. unfold Sankey.ensure. by rewrite !elem_of_keys_set.
Qed.

Lemma eventNodes_loop (events : list Nrql.Event) nodes :
  Forall (fun kn => Sankey.id kn.2 = kn.1) nodes →
  NoDup (Js.keys nodes) →
  Forall (fun kn => Sankey.id kn.2 = kn.1) (fold_left (Sankey.eventNodes p) events nodes)
  ∧ NoDup (Js.keys (fold_left (Sankey.eventNodes p) events nodes))
  ∧ (∀ k, k ∈ Js.keys nodes → k ∈ Js.keys (fold_left (Sankey.eventNodes p) events nodes))
  ∧ ∀ item, item ∈ events →
      Sankey.leftKey p item ∈ Js.keys (fold_left (Sankey.eventNodes p) events nodes)
      ∧ Sankey.rightKey p item ∈ Js.keys (fold_left (Sankey.eventNodes p) events nodes).
Proof.
  revert nodes. induction events as [|item events IH]; intros nodes Hids Hnd; simpl.
  - split_and!; [done | done | done |]. intros item Hin. by apply elem_of_nil in Hin.
  - destruct (eventNodes_step nodes item Hids Hnd) as (Hids' & Hnd' & Hkeys).
    destruct (IH _ Hids' Hnd') as (Hids'' & Hnd'' & Hmono & Hall).
    split_and!; [done | done | |].
    + intros k Hk. apply Hmono, Hkeys. auto.
    + intros item' [->|Hin]%elem_of_cons; [|by apply Hall].
      split; apply Hmono, Hkeys; auto.
Qed.

End EventNodes.

(** C9.  In event mode a left node id never equals a right node id, also
    when the two raw values are the same string; the node ids of the
    output are pairwise distinct, and the left and the right endpoint of
    every event are both among them. *)
Theorem event_left_right_namespaces_disjoint (p : Sankey.Props) :
  (∀ a b : Nrql.Event, Sankey.leftKey p a ≠ Sankey.rightKey p b)
  ∧ ∀ (series : Nrql.Series Nrql.Event) (rest : list (Nrql.Series Nrql.Event)),
      ∃ out, Sankey.transformEventData p (series :: rest) = Js.Ok out
        ∧ NoDup (Sankey.id <$> Sankey.nodes out)
        ∧ ∀ item, item ∈ Nrql.data series →
            Sankey.leftKey p item ∈ (Sankey.id <$> Sankey.nodes out)
            ∧ Sankey.rightKey p item ∈ (Sankey.id <$> Sankey.nodes out)
            ∧ Sankey.leftKey p item ≠ Sankey.rightKey p item.
Proof.
  split.
  - intros a b. apply left_right_suffix_differ.
  - intros series rest. eexists. split; [reflexivity|]. simpl.
    unfold Sankey.eventLoop. rewrite eventLoop_split. simpl.
    destruct (eventNodes_loop p (Nrql.data series) []) as (Hids & Hnd & _ & Hall);
      [constructor | constructor |].
    rewrite ids_of_values by done. split; [done|].
    intros item Hin. destruct (Hall item Hin) as [Hl Hr].
    split_and!; [done | done | apply left_right_suffix_differ].
Qed.

(** C4, as the code has it.  In event mode every event contributes to
    exactly one output link, the one stored under its link key
    [`${left}-${right}`]: the keys of the stored links are pairwise
    distinct and are exactly the link keys of the events, so there are as
    many links as distinct keys; the value of the link of an event is
    [in_bytes * sample_rate] summed, in batch order from 0, over all
    events with the same link key; and all events that share the two
    dimension values share the key, hence the link. *)
Theorem event_links_accumulate_per_key (p : Sankey.Props)
    (series : Nrql.Series Nrql.Event) (rest : list (Nrql.Series Nrql.Event)) :
  ∃ out, Sankey.transformEventData p (series :: rest) = Js.Ok out
    ∧ Sankey.links out = Js.values (snd (Sankey.eventLoop p (Nrql.data series)))
    ∧ NoDup (Js.keys (snd (Sankey.eventLoop p (Nrql.data series))))
    ∧ length (Sankey.links out)
      = length (remove_dups (Sankey.linkKey p <$> Nrql.data series))
    ∧ (∀ item, item ∈ Nrql.data series →
        ∃ link, Js.get (Sankey.linkKey p item) (snd (Sankey.eventLoop p (Nrql.data series)))
                = Some link
          ∧ link ∈ Sankey.links out
          ∧ Sankey.value link
            = Spec.volume (Spec.eventsOfKey p (Sankey.linkKey p item) (Nrql.data series)))
    ∧ (∀ item other, other ∈ Spec.eventsOfPair p item (Nrql.data series) →
        other ∈ Spec.eventsOfKey p (Sankey.linkKey p item) (Nrql.data series)).
Proof.
  eexists. split; [reflexivity|]. simpl.
  pose proof (eventLoop_links_NoDup p (Nrql.data series)) as Hnd.
  split_and!; [done | done | | |].
  - unfold Js.values. rewrite length_fmap.
    rewrite <- (length_fmap fst). apply Permutation_length.
    apply NoDup_Permutation; [done | apply NoDup_remove_dups |].
    intros k. fold (Js.keys (snd (Sankey.eventLoop p (Nrql.data series)))).
    rewrite eventLoop_link_keys, elem_of_remove_dups, list_elem_of_fmap.
    split; intros (item & ? & ?); by exists item.
  - intros item Hin.
    pose proof (eventLoop_links p (Nrql.data series) (Sankey.linkKey p item)) as Hget.
    unfold Spec.linkOfKey in Hget.
    destruct (Spec.eventsOfKey p (Sankey.linkKey p item) (Nrql.data series))
      as [|first others] eqn:E.
    + assert (item ∈ Spec.eventsOfKey p (Sankey.linkKey p item) (Nrql.data series)) as Hf
        by (by apply list_elem_of_filter).
      rewrite E in Hf. by apply elem_of_nil in Hf.
    + eexists. split; [exact Hget|]. split; [|reflexivity].
      by eapply get_Some_values.
  - intros item other [[Hl Hr] Hin]%list_elem_of_filter.
    apply list_elem_of_filter. split; [|done].
    unfold Sankey.linkKey. by rewrite Hl, Hr.
Qed.

(** C4 as stated fails when two different pairs build the same key: the
    events ("a", "b-c") and ("a-b", "c"), each of weight 1, give one link
    of value 2, while the events that share the pair of the first one
    weigh 1. *)
Lemma event_pair_sum_fails_on_key_collision :
  Sankey.transformEventData Inputs.dims
    (Inputs.batch [Inputs.event "a" "b-c" 1 1; Inputs.event "a-b" "c" 1 1])
  = Js.Ok {| Sankey.nodes :=
               [ {| Sankey.id := "a-left"; Sankey.name := "a" |};
                 {| Sankey.id := "b-c-right"; Sankey.name := "b-c" |};
                 {| Sankey.id := "a-b-left"; Sankey.name := "a-b" |};
                 {| Sankey.id := "c-right"; Sankey.name := "c" |} ];
             Sankey.links :=
               [ {| Sankey.source := "a-left"; Sankey.target := "b-c-right";
                    Sankey.value := 2%float |} ] |}
  ∧ Spec.eventsOfPair Inputs.dims (Inputs.event "a" "b-c" 1 1)
      [Inputs.event "a" "b-c" 1 1; Inputs.event "a-b" "c" 1 1]
    = [Inputs.event "a" "b-c" 1 1]
  ∧ Spec.volume
      (Spec.eventsOfPair Inputs.dims (Inputs.event "a" "b-c" 1 1)
         [Inputs.event "a" "b-c" 1 1; Inputs.event "a-b" "c" 1 1])
    = 1%float
  ∧ (2 =? 1)%float = false.
Proof. split_and!; vm_compute; reflexivity. Qed.

(** C10.  Two events whose link keys coincide are merged into one link,
    whether or not their dimension values agree: its endpoints are those
    of the first event and its value is the sum of both weights. *)
Theorem event_key_collision_merges (p : Sankey.Props) (r1 r2 : Nrql.Event)
    (groups : list Nrql.Group) (rest : list (Nrql.Series Nrql.Event)) :
  Sankey.linkKey p r1 = Sankey.linkKey p r2 →
  ∃ out,
    Sankey.transformEventData p ({| Nrql.groups := groups; Nrql.data := [r1; r2] |} :: rest)
    = Js.Ok out
    ∧ Sankey.links out
      = [ {| Sankey.source := Sankey.leftKey p r1;
             Sankey.target := Sankey.rightKey p r1;
             Sankey.value := (0 + Sankey.weight r1 + Sankey.weight r2)%float |} ].
Proof.
  intros Hkey. eexists. split; [reflexivity|]. simpl.
  unfold Sankey.eventLoop, Sankey.eventStep, Sankey.eventLinks. simpl.
  rewrite <- Hkey. repeat (rewrite !decide_True by done; simpl).
  reflexivity.
Qed.

(** The events ("a", "b-c") and ("a-b", "c") differ in both dimension
    values and collide on the key ["a-b-c"]. *)
Lemma event_key_collision_example :
  (Nrql.attr (Inputs.event "a" "b-c" 100 2) "src_geo" = Js.Str "a"
   ∧ Nrql.attr (Inputs.event "a-b" "c" 50 4) "src_geo" = Js.Str "a-b"
   ∧ Nrql.attr (Inputs.event "a" "b-c" 100 2) "dst_geo" = Js.Str "b-c"
   ∧ Nrql.attr (Inputs.event "a-b" "c" 50 4) "dst_geo" = Js.Str "c")
  ∧ Sankey.linkKey Inputs.dims (Inputs.event "a" "b-c" 100 2)
    = Sankey.linkKey Inputs.dims (Inputs.event "a-b" "c" 50 4)
  ∧ ∃ out,
      Sankey.transformEventData Inputs.dims
        (Inputs.batch [Inputs.event "a" "b-c" 100 2; Inputs.event "a-b" "c" 50 4])
      = Js.Ok out
      ∧ Sankey.links out
        = [ {| Sankey.source := "a-left"; Sankey.target := "b-c-right";
               Sankey.value := (0 + 100 * 2 + 50 * 4)%float |} ].
Proof.
  split; [by vm_compute|]. split; [reflexivity|].
  apply (event_key_collision_merges Inputs.dims
           (Inputs.event "a" "b-c" 100 2) (Inputs.event "a-b" "c" 50 4) [] []).
  reflexivity.
Defined.

(* ===================================================================== *)
(** * The Sankey visualization, facet mode                                 *)
(* ===================================================================== *)

Section FacetMode.

Implicit Types (item : Nrql.Series Nrql.Sample) (nodes : list string).

Lemma set_add_NoDup x nodes : NoDup nodes → NoDup (Js.set_add x nodes).
Proof.
  intros Hnd. unfold Js.set_add. destruct (decide (x ∈ nodes)) as [|Hx]; [done|].
  apply NoDup_app. split_and!; [done | | apply NoDup_singleton].
  by intros y Hy ->%list_elem_of_singleton.
Qed.

Lemma elem_of_set_add y x nodes : y ∈ Js.set_add x nodes ↔ y = x ∨ y ∈ nodes.
Proof.
  unfold Js.set_add. destruct (decide (x ∈ nodes)) as [Hx|Hx].
  - split; [by right | by intros [->|?]].
  - rewrite elem_of_app, list_elem_of_singleton. tauto.
Qed.

Lemma facetStep_ok nodes links item f0 f1 d0 :
  Sankey.facets item !! 0%nat = Some f0 →
  Sankey.facets item !! 1%nat = Some f1 →
  Nrql.data item !! 0%nat = Some d0 →
  Sankey.facetStep (nodes, links) item =
  Js.Ok (Js.set_add (Sankey.facetKey f1) (Js.set_add (Sankey.facetKey f0) nodes),
         links ++ [ {| Sankey.source := Sankey.facetKey f0;
                       Sankey.target := Sankey.facetKey f1;
                       Sankey.value := Nrql.y d0 |} ]).
Proof. intros H0 H1 Hd. unfold Sankey.facetStep. by rewrite H0, H1, Hd. Qed.

Lemma facetLoop_cons acc item (rest : list (Nrql.Series Nrql.Sample)) :
  Sankey.facetLoop acc (item :: rest) =
  Js.bind (Sankey.facetStep acc item) (fun acc' => Sankey.facetLoop acc' rest).
Proof. reflexivity. Qed.

(** The loop on rows that each have two facets and a sample. *)
Lemma facetLoop_ok (rawData : list (Nrql.Series Nrql.Sample)) nodes links :
  Forall (fun item => 2 ≤ length (Sankey.facets item) ∧ 1 ≤ length (Nrql.data item))
         rawData →
  NoDup nodes →
  ∃ nodes' links',
    Sankey.facetLoop (nodes, links) rawData = Js.Ok (nodes', links ++ links')
    ∧ Forall2 (fun item link =>
                 ∃ f0 f1 d0,
                   Sankey.facets item !! 0%nat = Some f0
                   ∧ Sankey.facets item !! 1%nat = Some f1
                   ∧ Nrql.data item !! 0%nat = Some d0
                   ∧ link = {| Sankey.source := Sankey.facetKey f0;
                               Sankey.target := Sankey.facetKey f1;
                               Sankey.value := Nrql.y d0 |})
              rawData links'
    ∧ NoDup nodes'
    ∧ ∀ s, s ∈ nodes' ↔
           s ∈ nodes ∨
           ∃ item f, item ∈ rawData
                     ∧ (Sankey.facets item !! 0%nat = Some f
                        ∨ Sankey.facets item !! 1%nat = Some f)
                     ∧ s = Sankey.facetKey f.
Proof.
  intros Hwf. revert nodes links.
  induction Hwf as [|item rawData [Hf Hd] _ IH]; intros nodes links Hnd.
  - exists nodes, []. simpl. rewrite app_nil_r. split_and!; [done | constructor | done |].
    intros s. split; [by left|]. intros [?|(item & f & Hin & _)]; [done|].
    by apply elem_of_nil in Hin.
  - destruct (lookup_lt_is_Some_2 (Sankey.facets item) 0%nat) as [f0 H0]; [lia|].
    destruct (lookup_lt_is_Some_2 (Sankey.facets item) 1%nat) as [f1 H1]; [lia|].
    destruct (lookup_lt_is_Some_2 (Nrql.data item) 0%nat) as [d0 Hd0]; [lia|].
    rewrite facetLoop_cons, (facetStep_ok _ _ _ f0 f1 d0) by done. simpl.
    edestruct IH as (nodes' & links' & Hloop & Hlinks & Hnd' & Hnodes);
      [by do 2 apply set_add_NoDup|].
    rewrite Hloop. eexists nodes', (_ :: links').
    split_and!; [by rewrite <- app_assoc | | done |].
    + constructor; [|done]. by exists f0, f1, d0.
    + intros s. rewrite Hnodes, !elem_of_set_add. split.
      * intros [[->|[->|?]]|(it & f & Hin & Hf' & ->)]; [| |by left|].
        -- right. exists item, f1. split_and!; [left | by right | done].
        -- right. exists item, f0. split_and!; [left | by left | done].
        -- right. exists it, f. split_and!; [by right | done | done].
      * intros [?|(it & f & [->|Hin]%elem_of_cons & Hf' & ->)]; [by auto| |].
        -- left. destruct Hf' as [Hf'|Hf']; [rewrite H0 in Hf'|rewrite H1 in Hf'];
             injection Hf' as ->; auto.
        -- right. by exists it, f.
Qed.

Lemma node_ids nodes :
  Sankey.id <$> ((fun node => {| Sankey.id := node; Sankey.name := Js.split_head node |})
                 <$> nodes) = nodes.
Proof. induction nodes as [|n nodes IH]; [done|]. rewrite !fmap_cons, IH. done. Qed.

End FacetMode.

(** C5.  In facet mode, on rows that each carry two facet groups and a
    sample, the links are the rows' links, one per row and in row order,
    each with the row's [data[0].y], nothing merged; the node ids are
    pairwise distinct and are exactly the facet identities of the rows. *)
Theorem facet_one_link_per_row (rawData : list (Nrql.Series Nrql.Sample)) :
  Forall (fun item => 2 ≤ length (Sankey.facets item) ∧ 1 ≤ length (Nrql.data item))
         rawData →
  ∃ out, Sankey.transformFacetData rawData = Js.Ok out
    ∧ length (Sankey.links out) = length rawData
    ∧ Forall2 (fun item link =>
                 ∃ f0 f1 d0,
                   Sankey.facets item !! 0%nat = Some f0
                   ∧ Sankey.facets item !! 1%nat = Some f1
                   ∧ Nrql.data item !! 0%nat = Some d0
                   ∧ link = {| Sankey.source := Sankey.facetKey f0;
                               Sankey.target := Sankey.facetKey f1;
                               Sankey.value := Nrql.y d0 |})
              rawData (Sankey.links out)
    ∧ NoDup (Sankey.id <$> Sankey.nodes out)
    ∧ ∀ s, s ∈ (Sankey.id <$> Sankey.nodes out) ↔
           ∃ item f, item ∈ rawData
                     ∧ (Sankey.facets item !! 0%nat = Some f
                        ∨ Sankey.facets item !! 1%nat = Some f)
                     ∧ s = Sankey.facetKey f.
Proof.
  intros Hwf.
  destruct (facetLoop_ok rawData [] [] Hwf) as (nodes' & links' & Hloop & Hlinks & Hnd & Hnodes);
    [constructor|].
  unfold Sankey.transformFacetData. rewrite Hloop. simpl.
  eexists. split; [reflexivity|]. simpl. rewrite node_ids.
  split_and!; [by apply Forall2_length in Hlinks | done | done |].
  intros s. rewrite Hnodes. split; [|by right].
  intros [Hin|?]; [by apply elem_of_nil in Hin | done].
Qed.

(** Two rows with the same two facets give two parallel links and two
    nodes. *)
Example facet_parallel_links :
  Sankey.transformFacetData [Inputs.facetRow "10.0.0.1" "US" 7; Inputs.facetRow "10.0.0.1" "US" 9]
  = Js.Ok {| Sankey.nodes :=
               [ {| Sankey.id := "10.0.0.1||ip_address"; Sankey.name := "10.0.0.1" |};
                 {| Sankey.id := "US||country"; Sankey.name := "US" |} ];
             Sankey.links :=
               [ {| Sankey.source := "10.0.0.1||ip_address"; Sankey.target := "US||country";
                    Sankey.value := 7%float |};
                 {| Sankey.source := "10.0.0.1||ip_address"; Sankey.target := "US||country";
                    Sankey.value := 9%float |} ] |}.
Proof. reflexivity. Qed.

Lemma facet_one_link_per_row_example :
  Forall (fun item => 2 ≤ length (Sankey.facets item) ∧ 1 ≤ length (Nrql.data item))
         [Inputs.facetRow "10.0.0.1" "US" 7; Inputs.facetRow "10.0.0.1" "US" 9]
  ∧ ∃ out,
      Sankey.transformFacetData
        [Inputs.facetRow "10.0.0.1" "US" 7; Inputs.facetRow "10.0.0.1" "US" 9] = Js.Ok out
      ∧ length (Sankey.links out) = 2%nat
      ∧ NoDup (Sankey.id <$> Sankey.nodes out).
Proof.
  assert (Forall (fun item => 2 ≤ length (Sankey.facets item) ∧ 1 ≤ length (Nrql.data item))
            [Inputs.facetRow "10.0.0.1" "US" 7; Inputs.facetRow "10.0.0.1" "US" 9]) as Hwf.
  { repeat constructor. }
  split; [exact Hwf|].
  destruct (facet_one_link_per_row _ Hwf) as (out & Hout & Hlen & _ & Hnd & _).
  exists out. split_and!; [exact Hout | exact Hlen | exact Hnd].
Defined.

(* ===================================================================== *)
(** * The country lookup                                                   *)
(* ===================================================================== *)

(** C2, where the code departs from it.  The receiver of [toLowerCase] is
    the argument itself, before the guard looks at it: for [undefined]
    and for [null] the lookup raises a TypeError. *)
Theorem getCountryMapData_nullish_raises (t : GetMapData.Tables) :
  GetMapData.getCountryMapData Js.Undefined t = Js.Throw Js.TypeError
  ∧ GetMapData.getCountryMapData Js.Null t = Js.Throw Js.TypeError.
Proof. split; reflexivity. Qed.

(** The rest of C2 holds: the empty string and a code that is not in the
    table give the empty object, and nothing is written. *)
Lemma getCountryMapData_unknown (s : string) (t : GetMapData.Tables) :
  s = "" ∨ GetMapData.countryData t !! Js.string_toLowerCase s = None →
  GetMapData.getCountryMapData (Js.Str s) t = Js.Ok (None, t).
Proof.
  intros [->|Hno]; [reflexivity|].
  unfold GetMapData.getCountryMapData. simpl. rewrite Hno. by destruct s.
Qed.

Lemma getCountryMapData_string_total (s : string) (t : GetMapData.Tables) :
  ∃ data t', GetMapData.getCountryMapData (Js.Str s) t = Js.Ok (data, t').
Proof.
  unfold GetMapData.getCountryMapData, Js.toLowerCase, Js.bind.
  destruct (if Js.truthy (Js.Str s) then _ else _); by eexists _, _.
Qed.

(** C3, as the code has it.  A lookup by a string never raises and leaves
    [countryBounds] and every record but the one of the lower-cased code
    as they were.  When the code is not empty and has a record, that
    record is written to: its [bounds] becomes [countryBounds[code]], its
    other fields stay, and the result is the stored record.  Otherwise
    nothing is written and the result is the empty object. *)
Theorem getCountryMapData_writes_bounds_of_stored_record
    (s : string) (t : GetMapData.Tables) :
  ∃ data t',
    GetMapData.getCountryMapData (Js.Str s) t = Js.Ok (data, t')
    ∧ GetMapData.countryBounds t' = GetMapData.countryBounds t
    ∧ (∀ code, code ≠ Js.string_toLowerCase s →
         GetMapData.countryData t' !! code = GetMapData.countryData t !! code)
    ∧ (∀ stored,
         s ≠ "" →
         GetMapData.countryData t !! Js.string_toLowerCase s = Some stored →
         data = Some {| GetMapData.id := GetMapData.id stored;
                        GetMapData.name := GetMapData.name stored;
                        GetMapData.bounds :=
                          GetMapData.countryBounds t !! Js.string_toLowerCase s |}
         ∧ GetMapData.countryData t' !! Js.string_toLowerCase s = data)
    ∧ (s = "" ∨ GetMapData.countryData t !! Js.string_toLowerCase s = None →
         data = None ∧ t' = t).
Proof.
  destruct s as [|c s].
  { exists None, t. split_and!; [reflexivity | done | done | done | done]. }
  destruct (GetMapData.countryData t !! Js.string_toLowerCase (String c s))
    as [stored|] eqn:E.
  - eexists _, _. split.
    { unfold GetMapData.getCountryMapData, Js.toLowerCase, Js.bind.
      rewrite E. reflexivity. }
    simpl. split_and!; [done | | |].
    + intros code Hne. by rewrite lookup_insert_ne.
    + intros stored' _ [= <-]. split; [done|]. by rewrite lookup_insert_eq.
    + by intros [?|?].
  - exists None, t. split; [by apply getCountryMapData_unknown; right|].
    split_and!; [done | done | | done]. by intros stored _ ?.
Qed.

(** C3 as stated fails: the lookup of "US" writes the bound into the
    record stored under "us", which had none before. *)
Lemma getCountryMapData_writes_to_table :
  GetMapData.countryData Inputs.tables !! "us"
  = Some {| GetMapData.id := "USA"; GetMapData.name := "United States";
            GetMapData.bounds := None |}
  ∧ ∃ data t',
      GetMapData.getCountryMapData (Js.Str "US") Inputs.tables = Js.Ok (data, t')
      ∧ GetMapData.countryData t' !! "us"
        = Some {| GetMapData.id := "USA"; GetMapData.name := "United States";
                  GetMapData.bounds := Some Inputs.usBound |}.
Proof. split; [reflexivity|]. eexists _, _. split; reflexivity. Qed.

(* ===================================================================== *)
(** * The map visualization: the aggregate index                           *)
(* ===================================================================== *)

Section AggregateIndex.

Implicit Types (st : KentikMap.State) (row : KentikMap.Row).

(** The callback never raises: the lookup is called on truthy values
    only, which are strings.  It writes [dataMap] under the row's
    country and nowhere else. *)
Lemma transformItem_frame i row st :
  ∃ feature st',
    KentikMap.transformItem i row st = Js.Ok (feature, st')
    ∧ ∀ C, KentikMap.countryOf row ≠ Js.Str C →
           KentikMap.dataMap st' !! C = KentikMap.dataMap st !! C.
Proof.
  unfold KentikMap.transformItem.
  destruct (KentikMap.countryOf row) as [| |s] eqn:E; simpl;
    try (by eexists _, _).
  destruct s as [|c s]; [by eexists _, _|].
  destruct (getCountryMapData_string_total (String c s) (KentikMap.tables st))
    as (data & t' & ->).
  simpl. eexists _, _. split; [reflexivity|]. simpl.
  intros C HC. rewrite lookup_insert_ne; [done|]. congruence.
Qed.

Lemma transformFrom_frame (data : list KentikMap.Row) i st C :
  (∀ row, row ∈ data → KentikMap.countryOf row ≠ Js.Str C) →
  ∃ features st',
    KentikMap.transformFrom i data st = Js.Ok (features, st')
    ∧ length features = length data
    ∧ KentikMap.dataMap st' !! C = KentikMap.dataMap st !! C.
Proof.
  revert i st. induction data as [|row data IH]; intros i st Hno; simpl.
  - by eexists _, _.
  - destruct (transformItem_frame i row st) as (feature & st1 & -> & Hframe). simpl.
    destruct (IH (S i) st1) as (features & st2 & -> & Hlen & Hkeep).
    { intros r Hr. apply Hno. by right. }
    simpl. eexists _, _. split; [reflexivity|]. simpl. split; [by rewrite Hlen|].
    rewrite Hkeep. apply Hframe, Hno. left.
Qed.

End AggregateIndex.

(** C1, as the code has it.  [dataMap] is created once with the instance
    and [transformData] only assigns to it: after a batch with no row
    whose country is [C], [getDataForCountry C] gives what it gave before
    the call, the entry of an earlier batch included. *)
Theorem transformData_keeps_entries_of_absent_countries
    (data : list KentikMap.Row) (st : KentikMap.State) (C : string) :
  (∀ row, row ∈ data → KentikMap.countryOf row ≠ Js.Str C) →
  ∃ features st',
    KentikMap.transformData data st = Js.Ok (features, st')
    ∧ length features = length data
    ∧ KentikMap.getDataForCountry C st' = KentikMap.getDataForCountry C st.
Proof. intros Hno. by apply transformFrom_frame. Qed.

(** C1 as stated fails: a batch with "US", then a batch with "DE" only;
    the entry of "US" is still there. *)
Lemma stale_aggregate_survives_next_batch :
  ∃ features1 st1 features2 st2,
    KentikMap.transformData [Inputs.countryRow "US" 3] (KentikMap.initial Inputs.tables)
    = Js.Ok (features1, st1)
    ∧ KentikMap.transformData [Inputs.countryRow "DE" 5] st1 = Js.Ok (features2, st2)
    ∧ KentikMap.countryOf (Inputs.countryRow "DE" 5) = Js.Str "DE"
    ∧ KentikMap.getDataForCountry "US" st2
      = Some {| KentikMap.item := Inputs.countryRow "US" 3;
                KentikMap.index := 0;
                KentikMap.sum := (0 + 3)%float |}.
Proof. eexists _, _, _, _. split_and!; reflexivity. Qed.

Lemma transformData_keeps_entries_example :
  (∀ row, row ∈ [Inputs.countryRow "DE" 5] → KentikMap.countryOf row ≠ Js.Str "US")
  ∧ ∃ features st',
      KentikMap.transformData [Inputs.countryRow "DE" 5] (KentikMap.initial Inputs.tables)
      = Js.Ok (features, st')
      ∧ length features = 1%nat
      ∧ KentikMap.getDataForCountry "US" st'
        = KentikMap.getDataForCountry "US" (KentikMap.initial Inputs.tables).
Proof.
  assert (∀ row, row ∈ [Inputs.countryRow "DE" 5] → KentikMap.countryOf row ≠ Js.Str "US")
    as Hno.
  { intros row ->%list_elem_of_singleton. discriminate. }
  split; [exact Hno|].
  exact (transformData_keeps_entries_of_absent_countries
           [Inputs.countryRow "DE" 5] (KentikMap.initial Inputs.tables) "US" Hno).
Defined.

(* ===================================================================== *)
(** * The map visualization: getMapBounds                                  *)
(* ===================================================================== *)

Section Bounds.

Implicit Types (a b x : GetMapData.Bound) (bs : list GetMapData.Bound).

Lemma encloses_refl b : Spec.encloses b b.
Proof. unfold Spec.encloses. split_and!; apply Qle_refl. Qed.

Lemma encloses_trans a b x :
  Spec.encloses a b → Spec.encloses b x → Spec.encloses a x.
Proof.
  unfold Spec.encloses. intros (?&?&?&?) (?&?&?&?).
  split_and!; eapply Qle_trans; eauto.
Qed.

Lemma hull_encloses_l a b : Spec.encloses (Spec.hull a b) a.
Proof.
  unfold Spec.encloses, Spec.hull. simpl.
  split_and!; auto using Q.le_min_l, Q.le_max_l.
Qed.

Lemma hull_encloses_r a b : Spec.encloses (Spec.hull a b) b.
Proof.
  unfold Spec.encloses, Spec.hull. simpl.
  split_and!; auto using Q.le_min_r, Q.le_max_r.
Qed.

(** The fold of [hull] holds its start and every bound it has met. *)
Lemma hull_fold_encloses bs b x :
  x ∈ b :: bs → Spec.encloses (fold_left Spec.hull bs b) x.
Proof.
  revert b x. induction bs as [|c bs IH]; intros b x Hin; simpl.
  - apply list_elem_of_singleton in Hin as ->. apply encloses_refl.
  - apply elem_of_cons in Hin as [->|[->|Hin]%elem_of_cons].
    + eapply encloses_trans; [apply IH; left | apply hull_encloses_l].
    + eapply encloses_trans; [apply IH; left | apply hull_encloses_r].
    + apply IH. by right.
Qed.

Lemma extend_fold bs b :
  fold_left KentikMap.extend bs (Spec.extentOf b)
  = Spec.extentOf (fold_left Spec.hull bs b).
Proof.
  revert b. induction bs as [|c bs IH]; intros b; simpl; [done|].
  exact (IH (Spec.hull b c)).
Qed.

(** The four variables are all assigned once the loop has run: the
    last branch of [getMapBounds] is not taken. *)
Lemma extent_defined b bs :
  fold_left KentikMap.extend (b :: bs)
    {| KentikMap.maxLon := None; KentikMap.maxLat := None;
       KentikMap.minLon := None; KentikMap.minLat := None |}
  = Spec.extentOf (fold_left Spec.hull bs b).
Proof. simpl. apply extend_fold. Qed.

Lemma getMapBounds_folded (data : list (option GetMapData.CountryRecord)) b bs :
  KentikMap.boundsOf data = b :: bs →
  KentikMap.getMapBounds data =
  Some (if Qeq_bool (GetMapData.maxLat (fold_left Spec.hull bs b))
                    (GetMapData.minLat (fold_left Spec.hull bs b))
           && Qeq_bool (GetMapData.maxLon (fold_left Spec.hull bs b))
                       (GetMapData.minLon (fold_left Spec.hull bs b))
        then Spec.grown (fold_left Spec.hull bs b)
        else Spec.corners (fold_left Spec.hull bs b)).
Proof.
  intros Hb. unfold KentikMap.getMapBounds. rewrite Hb.
  rewrite decide_False by done. rewrite extent_defined. simpl.
  by destruct (_ && _).
Qed.

Lemma grown_encloses b x :
  Spec.encloses b x →
  (KentikMap.lng (KentikMap.southWest (Spec.grown b)) <= GetMapData.minLon x
   ∧ KentikMap.lat (KentikMap.southWest (Spec.grown b)) <= GetMapData.minLat x
   ∧ GetMapData.maxLon x <= KentikMap.lng (KentikMap.northEast (Spec.grown b))
   ∧ GetMapData.maxLat x <= KentikMap.lat (KentikMap.northEast (Spec.grown b)))%Q.
Proof. unfold Spec.encloses. simpl. intros (?&?&?&?). split_and!; lra. Qed.

End Bounds.

(** C7.  The bound [getMapBounds] returns holds every bound of the
    input, and it is [undefined] when no feature carries a bound. *)
Theorem getMapBounds_encloses (data : list (option GetMapData.CountryRecord)) :
  (∀ b, b ∈ KentikMap.boundsOf data →
     ∃ r, KentikMap.getMapBounds data = Some r
       ∧ (KentikMap.lng (KentikMap.southWest r) <= GetMapData.minLon b
          ∧ KentikMap.lat (KentikMap.southWest r) <= GetMapData.minLat b
          ∧ GetMapData.maxLon b <= KentikMap.lng (KentikMap.northEast r)
          ∧ GetMapData.maxLat b <= KentikMap.lat (KentikMap.northEast r))%Q)
  ∧ (Forall (fun item => item ≫= GetMapData.bounds = None) data →
     KentikMap.getMapBounds data = None).
Proof.
  split.
  - intros x Hin.
    destruct (KentikMap.boundsOf data) as [|b bs] eqn:Hb; [by apply elem_of_nil in Hin|].
    rewrite (getMapBounds_folded data b bs Hb).
    pose proof (hull_fold_encloses bs b x Hin) as Henc.
    eexists. split; [reflexivity|]. destruct (_ && _).
    + by apply grown_encloses.
    + exact Henc.
  - intros Hnone. unfold KentikMap.getMapBounds.
    replace (KentikMap.boundsOf data) with (@nil GetMapData.Bound); [done|].
    unfold KentikMap.boundsOf. induction Hnone as [|item data Hitem _ IH]; [done|].
    simpl. by rewrite Hitem.
Qed.

Lemma getMapBounds_encloses_example :
  (∀ b, b ∈ KentikMap.boundsOf [Inputs.feature (Inputs.box 1 2 3 4); None;
                                Inputs.feature (Inputs.box (-5) 0 2 9)] →
     ∃ r, KentikMap.getMapBounds [Inputs.feature (Inputs.box 1 2 3 4); None;
                                  Inputs.feature (Inputs.box (-5) 0 2 9)] = Some r
       ∧ (KentikMap.lng (KentikMap.southWest r) <= GetMapData.minLon b
          ∧ KentikMap.lat (KentikMap.southWest r) <= GetMapData.minLat b
          ∧ GetMapData.maxLon b <= KentikMap.lng (KentikMap.northEast r)
          ∧ GetMapData.maxLat b <= KentikMap.lat (KentikMap.northEast r))%Q)
  ∧ KentikMap.getMapBounds [Inputs.feature (Inputs.box 1 2 3 4); None;
                            Inputs.feature (Inputs.box (-5) 0 2 9)]
    = Some (Spec.corners (Inputs.box (-5) 0 3 9))
  ∧ KentikMap.getMapBounds [None; None] = None.
Proof.
  split_and!.
  - apply (getMapBounds_encloses [Inputs.feature (Inputs.box 1 2 3 4); None;
                                  Inputs.feature (Inputs.box (-5) 0 2 9)]).
  - reflexivity.
  - apply (getMapBounds_encloses [None; None]). repeat constructor.
Defined.

(** C8.  The correction is applied exactly when the folded bound has
    equal latitudes and equal longitudes, and it then moves every side
    out by one; a bound that is flat on one axis only is returned as it
    is. *)
Theorem getMapBounds_degenerate_correction
    (data : list (option GetMapData.CountryRecord))
    (b : GetMapData.Bound) (bs : list GetMapData.Bound) :
  KentikMap.boundsOf data = b :: bs →
  ((GetMapData.maxLat (fold_left Spec.hull bs b) == GetMapData.minLat (fold_left Spec.hull bs b)
    ∧ GetMapData.maxLon (fold_left Spec.hull bs b) == GetMapData.minLon (fold_left Spec.hull bs b))%Q →
   KentikMap.getMapBounds data = Some (Spec.grown (fold_left Spec.hull bs b)))
  ∧ (¬ (GetMapData.maxLat (fold_left Spec.hull bs b) == GetMapData.minLat (fold_left Spec.hull bs b)
        ∧ GetMapData.maxLon (fold_left Spec.hull bs b) == GetMapData.minLon (fold_left Spec.hull bs b))%Q →
     KentikMap.getMapBounds data = Some (Spec.corners (fold_left Spec.hull bs b))).
Proof.
  intros Hb. rewrite (getMapBounds_folded data b bs Hb).
  destruct (Qeq_bool (GetMapData.maxLat _) _) eqn:Elat;
    destruct (Qeq_bool (GetMapData.maxLon _) _) eqn:Elon; simpl.
  - split; [done|]. intros Hn. destruct Hn. split; by apply Qeq_bool_iff.
  - split; [|done]. intros [_ H]. apply Qeq_bool_iff in H. congruence.
  - split; [|done]. intros [H _]. apply Qeq_bool_iff in H. congruence.
  - split; [|done]. intros [H _]. apply Qeq_bool_iff in H. congruence.
Qed.

Lemma getMapBounds_degenerate_example :
  KentikMap.boundsOf [Inputs.feature (Inputs.box 5 5 5 5)] = [Inputs.box 5 5 5 5]
  ∧ KentikMap.getMapBounds [Inputs.feature (Inputs.box 5 5 5 5)]
    = Some (Spec.corners (Inputs.box 4 4 6 6))
  ∧ KentikMap.getMapBounds [Inputs.feature (Inputs.box 5 5 5 7)]
    = Some (Spec.corners (Inputs.box 5 5 5 7))
  ∧ KentikMap.getMapBounds [Inputs.feature (Inputs.box 5 5 7 5)]
    = Some (Spec.corners (Inputs.box 5 5 7 5)).
Proof.
  split_and!.
  - reflexivity.
  - apply (getMapBounds_degenerate_correction
             [Inputs.feature (Inputs.box 5 5 5 5)] (Inputs.box 5 5 5 5) [] eq_refl).
    split; reflexivity.
  - apply (getMapBounds_degenerate_correction
             [Inputs.feature (Inputs.box 5 5 5 7)] (Inputs.box 5 5 5 7) [] eq_refl).
    intros [H _]. discriminate H.
  - apply (getMapBounds_degenerate_correction
             [Inputs.feature (Inputs.box 5 5 7 5)] (Inputs.box 5 5 7 5) [] eq_refl).
    intros [_ H]. discriminate H.
Defined.

(* ===================================================================== *)
(** * Magnitude scaling                                                    *)
(* ===================================================================== *)

Lemma find_first_passing {A} (f : A → bool) (before after : list A) (x : A) :
  Forall (fun y => f y = false) before → f x = true →
  List.find f (before ++ x :: after) = Some x.
Proof.
  intros Hbefore Hx. induction Hbefore as [|y before Hy _ IH]; simpl.
  - by rewrite Hx.
  - by rewrite Hy.
Qed.

Lemma find_none_passing {A} (f : A → bool) (l : list A) :
  Forall (fun y => f y = false) l → List.find f l = None.
Proof. induction 1 as [|y l Hy _ IH]; simpl; [done|]. by rewrite Hy. Qed.

(** C6.  The prefixes are tried from the largest magnitude down and the
    first one whose quotient is strictly above [scaleMax] wins; none is
    chosen when no quotient is.  For 1500000 the quotient by 1e6 is 1.5,
    not above 5, and the quotient by 1e3 is 1500: the prefix is "K" and
    [formatBytesGreek(1500000, 'B')] is ["1500 KB"]. *)
Theorem formatBytesGreek_first_passing_prefix (numberToString : float → string) :
  GreekPrefixing.value <$> GreekPrefixing.PREFIXES = ["P"; "T"; "G"; "M"; "K"]
  ∧ GreekPrefixing.magnitude <$> GreekPrefixing.PREFIXES
    = [1e15; 1e12; 1e9; 1e6; 1e3]%float
  ∧ (∀ data scaleMax before pf after,
       GreekPrefixing.PREFIXES = before ++ pf :: after →
       Forall (fun q =>
                 GreekPrefixing.gt
                   (GreekPrefixing.nStdDeviations data 2 / GreekPrefixing.magnitude q)%float
                   (default 5%float scaleMax) = false) before →
       GreekPrefixing.gt
         (GreekPrefixing.nStdDeviations data 2 / GreekPrefixing.magnitude pf)%float
         (default 5%float scaleMax) = true →
       GreekPrefixing.greekPrefix data scaleMax = GreekPrefixing.value pf)
  ∧ (∀ data scaleMax,
       Forall (fun q =>
                 GreekPrefixing.gt
                   (GreekPrefixing.nStdDeviations data 2 / GreekPrefixing.magnitude q)%float
                   (default 5%float scaleMax) = false) GreekPrefixing.PREFIXES →
       GreekPrefixing.greekPrefix data scaleMax = "")
  ∧ GreekPrefixing.nStdDeviations [Some 1500000%float] 2 = 1500000%float
  ∧ GreekPrefixing.gt (1500000 / 1e6)%float 5 = false
  ∧ GreekPrefixing.gt (1500000 / 1e3)%float 5 = true
  ∧ GreekPrefixing.greekPrefix [Some 1500000%float] None = "K"
  ∧ GreekPrefixing.adjustByGreekPrefix 1500000 "K" = 1500%float
  ∧ GreekPrefixing.formatBytesGreek numberToString
      (GreekPrefixing.Scalar (Some 1500000%float)) (Some "B") None = "1500 KB".
Proof.
  split_and!; try (vm_compute; reflexivity).
  - intros data scaleMax before pf after Hsplit Hbefore Hpf.
    unfold GreekPrefixing.greekPrefix. rewrite Hsplit.
    by rewrite (find_first_passing _ before after pf).
  - intros data scaleMax Hnone. unfold GreekPrefixing.greekPrefix.
    by rewrite find_none_passing.
Qed.

(** The threshold is strict: a quotient of exactly 5 does not pass. *)
Example greekPrefix_at_threshold :
  GreekPrefixing.greekPrefix [Some 5000%float] None = ""
  ∧ GreekPrefixing.greekPrefix [Some 6000%float; Some 6000%float] None = "K"
  ∧ GreekPrefixing.greekPrefix [Some 1000%float; Some 1000%float; Some 1000%float] None = "".
Proof. split_and!; vm_compute; reflexivity. Qed.

(* ===================================================================== *)
(** * Further properties of the country lookup                             *)
(* ===================================================================== *)

Lemma string_toLowerCase_empty (s : string) :
  Js.string_toLowerCase s = "" → s = "".
Proof. by destruct s. Qed.

(** The answer of a lookup by a string, read off the tables. *)
Lemma getCountryMapData_string (s : string) (t : GetMapData.Tables) :
  GetMapData.getCountryMapData (Js.Str s) t =
  match (if Js.truthy (Js.Str s)
         then MapSpec.recordOf t (Js.string_toLowerCase s) else None) with
  | Some data =>
      Js.Ok (Some data,
             {| GetMapData.countryData :=
                  <[Js.string_toLowerCase s := data]> (GetMapData.countryData t);
                GetMapData.countryBounds := GetMapData.countryBounds t |})
  | None => Js.Ok (None, t)
  end.
Proof.
  unfold GetMapData.getCountryMapData, MapSpec.recordOf, Js.toLowerCase, Js.bind.
  destruct (Js.truthy (Js.Str s)); [|done].
  by destruct (GetMapData.countryData t !! Js.string_toLowerCase s).
Qed.

(** X1.  The lookup is case-insensitive: two strings with the same
    lower-case form get the same answer and leave the same tables. *)
Theorem getCountryMapData_case_insensitive (s s' : string) (t : GetMapData.Tables) :
  Js.string_toLowerCase s = Js.string_toLowerCase s' →
  GetMapData.getCountryMapData (Js.Str s) t = GetMapData.getCountryMapData (Js.Str s') t.
Proof.
  intros Hlow. rewrite !getCountryMapData_string, Hlow.
  replace (Js.truthy (Js.Str s)) with (Js.truthy (Js.Str s')); [done|].
  destruct s, s'; try done; simpl in Hlow; discriminate.
Qed.

Lemma getCountryMapData_case_insensitive_example :
  Js.string_toLowerCase "US" = Js.string_toLowerCase "us"
  ∧ GetMapData.getCountryMapData (Js.Str "US") Inputs.tables
    = GetMapData.getCountryMapData (Js.Str "us") Inputs.tables.
Proof.
  split; [reflexivity|].
  apply (getCountryMapData_case_insensitive "US" "us" Inputs.tables). reflexivity.
Defined.

(** X2.  A lookup that has been made once is stable: made again on the
    tables it left, it gives the same answer and writes nothing new. *)
Theorem getCountryMapData_stable (countryCode : Js.value) (t t' : GetMapData.Tables)
    (data : option GetMapData.CountryRecord) :
  GetMapData.getCountryMapData countryCode t = Js.Ok (data, t') →
  GetMapData.getCountryMapData countryCode t' = Js.Ok (data, t').
Proof.
  destruct countryCode as [| |s]; [discriminate | discriminate |].
  rewrite !getCountryMapData_string.
  destruct (Js.truthy (Js.Str s)); [|by intros [= <- <-]].
  unfold MapSpec.recordOf.
  destruct (GetMapData.countryData t !! Js.string_toLowerCase s) as [stored|] eqn:E; simpl.
  - intros [= <- <-]. simpl. rewrite lookup_insert_eq. simpl.
    by rewrite insert_insert_eq.
  - intros [= <- <-]. by rewrite E.
Qed.

Lemma getCountryMapData_stable_example :
  ∃ data t',
    GetMapData.getCountryMapData (Js.Str "US") Inputs.tables = Js.Ok (data, t')
    ∧ data = Some {| GetMapData.id := "USA"; GetMapData.name := "United States";
                     GetMapData.bounds := Some Inputs.usBound |}
    ∧ GetMapData.getCountryMapData (Js.Str "US") t' = Js.Ok (data, t').
Proof.
  eexists _, _. split; [reflexivity|]. split; [reflexivity|].
  apply (getCountryMapData_stable (Js.Str "US") Inputs.tables). reflexivity.
Defined.

(** X3.  A lookup by a string never raises, and its answer is the empty
    object exactly when the string is empty or its lower-case form has no
    record in the country table; nothing is written then. *)
Theorem getCountryMapData_empty_iff (s : string) (t : GetMapData.Tables) :
  ∃ data t',
    GetMapData.getCountryMapData (Js.Str s) t = Js.Ok (data, t')
    ∧ (data = None ↔
       s = "" ∨ GetMapData.countryData t !! Js.string_toLowerCase s = None)
    ∧ (data = None → t' = t).
Proof.
  rewrite getCountryMapData_string. unfold MapSpec.recordOf.
  destruct s as [|c s].
  { exists None, t. simpl. split_and!; [done | | done]. split; [by left | done]. }
  destruct (GetMapData.countryData t !! Js.string_toLowerCase (String c s))
    as [stored|] eqn:E.
  - eexists _, _. split_and!; [reflexivity | | done].
    split; [done|]. intros [?|?]; congruence.
  - exists None, t. split_and!; [done | | done]. split; [by right | done].
Qed.

(* ===================================================================== *)
(** * Further properties of the map's transformData                        *)
(* ===================================================================== *)

Section TransformData.

Implicit Types (t : GetMapData.Tables) (st : KentikMap.State) (row : KentikMap.Row).

(** A lookup changes no answer of a later lookup. *)
Lemma getCountryMapData_answers (s : string) t :
  ∃ t',
    GetMapData.getCountryMapData (Js.Str s) t
    = Js.Ok (if Js.truthy (Js.Str s)
             then MapSpec.recordOf t (Js.string_toLowerCase s) else None, t')
    ∧ ∀ code, MapSpec.recordOf t' code = MapSpec.recordOf t code.
Proof.
  rewrite getCountryMapData_string.
  destruct (Js.truthy (Js.Str s)); [|by exists t].
  destruct (MapSpec.recordOf t (Js.string_toLowerCase s)) as [data|] eqn:E;
    [|by exists t].
  eexists. split; [reflexivity|]. intros code. unfold MapSpec.recordOf in *. simpl.
  destruct (decide (code = Js.string_toLowerCase s)) as [->|Hne].
  - rewrite lookup_insert_eq. simpl.
    destruct (GetMapData.countryData t !! Js.string_toLowerCase s); [|done].
    simpl in *. by injection E as <-.
  - by rewrite lookup_insert_ne.
Qed.

Lemma featureOf_ext t t' row :
  (∀ code, MapSpec.recordOf t' code = MapSpec.recordOf t code) →
  MapSpec.featureOf t' row = MapSpec.featureOf t row.
Proof. intros H. unfold MapSpec.featureOf. by destruct (Js.truthy _). Qed.

(** The callback: its feature, and what it does to [dataMap]. *)
Lemma transformItem_spec i row st :
  ∃ t',
    KentikMap.transformItem i row st
    = Js.Ok (MapSpec.featureOf (KentikMap.tables st) row,
             {| KentikMap.tables := t';
                KentikMap.dataMap :=
                  if Js.truthy (KentikMap.countryOf row)
                  then <[Js.toString (KentikMap.countryOf row) :=
                           {| KentikMap.item := row; KentikMap.index := i;
                              KentikMap.sum := KentikMap.sumOf row |}]>
                       (KentikMap.dataMap st)
                  else KentikMap.dataMap st |})
    ∧ ∀ code, MapSpec.recordOf t' code = MapSpec.recordOf (KentikMap.tables st) code.
Proof.
  unfold KentikMap.transformItem, MapSpec.featureOf.
  destruct (KentikMap.countryOf row) as [| |s] eqn:E;
    try (exists (KentikMap.tables st); by destruct st).
  destruct (getCountryMapData_answers s (KentikMap.tables st)) as (t' & Hget & Hsame).
  destruct (Js.truthy (Js.Str s)) eqn:Ht.
  - exists t'. rewrite Hget. done.
  - exists (KentikMap.tables st). by destruct st.
Qed.

Lemma transformFrom_features (data : list KentikMap.Row) i st t0 :
  (∀ code, MapSpec.recordOf (KentikMap.tables st) code = MapSpec.recordOf t0 code) →
  ∃ st',
    KentikMap.transformFrom i data st = Js.Ok (MapSpec.featureOf t0 <$> data, st')
    ∧ ∀ code, MapSpec.recordOf (KentikMap.tables st') code = MapSpec.recordOf t0 code.
Proof.
  revert i st. induction data as [|row data IH]; intros i st Hsame; simpl.
  - by exists st.
  - destruct (transformItem_spec i row st) as (t' & -> & Hsame'). simpl.
    edestruct (IH (S i)) as (st' & -> & Hsame'').
    { simpl. intros code. by rewrite Hsame'. }
    simpl. exists st'. split; [|done].
    by rewrite (featureOf_ext t0 (KentikMap.tables st) row).
Qed.

(** Where the entry of a country comes from: the last row that names it. *)
Lemma transformFrom_last_row (data : list KentikMap.Row) k st (i : nat) row (c : string) :
  data !! i = Some row →
  KentikMap.countryOf row = Js.Str c → c ≠ "" →
  (∀ j row', i < j → data !! j = Some row' → KentikMap.countryOf row' ≠ Js.Str c) →
  ∃ features st',
    KentikMap.transformFrom k data st = Js.Ok (features, st')
    ∧ KentikMap.dataMap st' !! c
      = Some {| KentikMap.item := row; KentikMap.index := k + i;
                KentikMap.sum := KentikMap.sumOf row |}.
Proof.
  revert k st i. induction data as [|row0 data IH]; intros k st i Hi Hc Hne Hlast; [done|].
  simpl. destruct (transformItem_spec k row0 st) as (t' & -> & _). simpl.
  destruct i as [|i]; simpl in Hi.
  - injection Hi as ->. rewrite Hc.
    replace (Js.truthy (Js.Str c)) with true by (by destruct c). simpl.
    edestruct (transformFrom_frame data (S k)) as (features & st' & -> & _ & Hkeep).
    { intros r [j Hj]%list_elem_of_lookup. apply (Hlast (S j) r); [lia | done]. }
    simpl. eexists _, _. split; [reflexivity|]. simpl.
    rewrite Hkeep. simpl. rewrite lookup_insert_eq. do 2 f_equal. lia.
  - edestruct (IH (S k)) as (features & st' & -> & Hentry); [exact Hi | done | done | |].
    { intros j row' Hj Hrow'. apply (Hlast (S j) row'); [lia | done]. }
    simpl. eexists _, _. split; [reflexivity|]. simpl. rewrite Hentry.
    do 2 f_equal. lia.
Qed.

End TransformData.

(** X4.  [transformData] never raises, and its result has one feature per
    row, in row order, each fixed by the row and by the tables as they
    were before the call: the empty object for a row without a truthy
    country, the answer of the lookup otherwise. *)
Theorem transformData_features (data : list KentikMap.Row) (st : KentikMap.State) :
  ∃ st',
    KentikMap.transformData data st
    = Js.Ok (MapSpec.featureOf (KentikMap.tables st) <$> data, st').
Proof.
  destruct (transformFrom_features data 0 st (KentikMap.tables st)) as (st' & H & _);
    [done|].
  by exists st'.
Qed.

(** X5.  After [transformData], the entry of a country named by the batch
    is the one of the last row that names it: that row, its position in
    the batch, and the sum of its [y] values. *)
Theorem transformData_last_row_wins (data : list KentikMap.Row) (st : KentikMap.State)
    (i : nat) (row : KentikMap.Row) (c : string) :
  data !! i = Some row →
  KentikMap.countryOf row = Js.Str c → c ≠ "" →
  (∀ j row', i < j → data !! j = Some row' → KentikMap.countryOf row' ≠ Js.Str c) →
  ∃ features st',
    KentikMap.transformData data st = Js.Ok (features, st')
    ∧ KentikMap.getDataForCountry c st'
      = Some {| KentikMap.item := row; KentikMap.index := i;
                KentikMap.sum := KentikMap.sumOf row |}.
Proof. intros. by apply (transformFrom_last_row data 0 st i row c). Qed.

Lemma transformData_last_row_wins_example :
  ∃ features st',
    KentikMap.transformData
      [Inputs.countryRow "US" 3; Inputs.countryRow "DE" 5; Inputs.countryRow "US" 7]
      (KentikMap.initial Inputs.tables) = Js.Ok (features, st')
    ∧ KentikMap.getDataForCountry "US" st'
      = Some {| KentikMap.item := Inputs.countryRow "US" 7; KentikMap.index := 2;
                KentikMap.sum := KentikMap.sumOf (Inputs.countryRow "US" 7) |}.
Proof.
  apply (transformData_last_row_wins
           [Inputs.countryRow "US" 3; Inputs.countryRow "DE" 5; Inputs.countryRow "US" 7]
           (KentikMap.initial Inputs.tables) 2 (Inputs.countryRow "US" 7) "US").
  - reflexivity.
  - reflexivity.
  - discriminate.
  - intros j row' Hj Hrow'. destruct j as [|[|[|j]]]; [lia | lia | lia | discriminate].
Defined.

(* ===================================================================== *)
(** * Further properties of getMapBounds                                   *)
(* ===================================================================== *)

Section MoreBounds.

Implicit Types (a b x : GetMapData.Bound) (bs : list GetMapData.Bound).

Lemma Qmin_cases (p q : Q) : Qmin p q = p ∨ Qmin p q = q.
Proof.
  unfold Qmin, GenericMinMax.gmin. destruct (p ?= q)%Q; auto.
Qed.

Lemma Qmax_cases (p q : Q) : Qmax p q = p ∨ Qmax p q = q.
Proof.
  unfold Qmax, GenericMinMax.gmax. destruct (p ?= q)%Q; auto.
Qed.

(** Every side of the fold of [hull] is that side of a bound it met. *)
Lemma hull_fold_attained bs b :
  (∃ x, x ∈ b :: bs ∧ GetMapData.minLon (fold_left Spec.hull bs b) = GetMapData.minLon x)
  ∧ (∃ x, x ∈ b :: bs ∧ GetMapData.minLat (fold_left Spec.hull bs b) = GetMapData.minLat x)
  ∧ (∃ x, x ∈ b :: bs ∧ GetMapData.maxLon (fold_left Spec.hull bs b) = GetMapData.maxLon x)
  ∧ (∃ x, x ∈ b :: bs ∧ GetMapData.maxLat (fold_left Spec.hull bs b) = GetMapData.maxLat x).
Proof.
  revert b. induction bs as [|c bs IH]; intros b; simpl.
  - split_and!; exists b; (split; [left | done]).
  - destruct (IH (Spec.hull b c)) as ((x1 & H1 & E1) & (x2 & H2 & E2) & (x3 & H3 & E3) & (x4 & H4 & E4)).
    split_and!.
    + apply elem_of_cons in H1 as [->|H1]; [|exists x1; split; [by do 2 right | done]].
      rewrite E1. simpl.
      destruct (Qmin_cases (GetMapData.minLon b) (GetMapData.minLon c)) as [->| ->];
        [exists b | exists c]; (split; [|done]); [left | right; left].
    + apply elem_of_cons in H2 as [->|H2]; [|exists x2; split; [by do 2 right | done]].
      rewrite E2. simpl.
      destruct (Qmin_cases (GetMapData.minLat b) (GetMapData.minLat c)) as [->| ->];
        [exists b | exists c]; (split; [|done]); [left | right; left].
    + apply elem_of_cons in H3 as [->|H3]; [|exists x3; split; [by do 2 right | done]].
      rewrite E3. simpl.
      destruct (Qmax_cases (GetMapData.maxLon b) (GetMapData.maxLon c)) as [->| ->];
        [exists b | exists c]; (split; [|done]); [left | right; left].
    + apply elem_of_cons in H4 as [->|H4]; [|exists x4; split; [by do 2 right | done]].
      rewrite E4. simpl.
      destruct (Qmax_cases (GetMapData.maxLat b) (GetMapData.maxLat c)) as [->| ->];
        [exists b | exists c]; (split; [|done]); [left | right; left].
Qed.

(** What [getMapBounds] gives, in terms of the fold of [hull]. *)
Lemma getMapBounds_cases (data : list (option GetMapData.CountryRecord)) r :
  KentikMap.getMapBounds data = Some r →
  ∃ b bs,
    KentikMap.boundsOf data = b :: bs
    ∧ ((GetMapData.maxLat (fold_left Spec.hull bs b) == GetMapData.minLat (fold_left Spec.hull bs b)
        ∧ GetMapData.maxLon (fold_left Spec.hull bs b) == GetMapData.minLon (fold_left Spec.hull bs b))%Q
       ∧ r = Spec.grown (fold_left Spec.hull bs b)
       ∨ ¬ (GetMapData.maxLat (fold_left Spec.hull bs b) == GetMapData.minLat (fold_left Spec.hull bs b)
            ∧ GetMapData.maxLon (fold_left Spec.hull bs b) == GetMapData.minLon (fold_left Spec.hull bs b))%Q
         ∧ r = Spec.corners (fold_left Spec.hull bs b)).
Proof.
  intros Hr. destruct (KentikMap.boundsOf data) as [|b bs] eqn:Hb.
  { unfold KentikMap.getMapBounds in Hr. by rewrite Hb in Hr. }
  exists b, bs. split; [done|].
  rewrite (getMapBounds_folded data b bs Hb) in Hr. injection Hr as <-.
  destruct (Qeq_bool (GetMapData.maxLat _) _) eqn:Elat;
    destruct (Qeq_bool (GetMapData.maxLon _) _) eqn:Elon; simpl.
  - left. split; [|done]. split; by apply Qeq_bool_iff.
  - right. split; [|done]. intros [_ H]. apply Qeq_bool_iff in H. congruence.
  - right. split; [|done]. intros [H _]. apply Qeq_bool_iff in H. congruence.
  - right. split; [|done]. intros [H _]. apply Qeq_bool_iff in H. congruence.
Qed.

End MoreBounds.



(** X7.  When every bound of the input has its minimum at or below its
    maximum on both axes, so has the result: its south-west corner is at
    or below its north-east corner. *)
Theorem getMapBounds_well_formed
    (data : list (option GetMapData.CountryRecord)) (r : KentikMap.LatLngBounds) :
  (∀ b, b ∈ KentikMap.boundsOf data →
        (GetMapData.minLon b <= GetMapData.maxLon b
         ∧ GetMapData.minLat b <= GetMapData.maxLat b)%Q) →
  KentikMap.getMapBounds data = Some r →
  (KentikMap.lng (KentikMap.southWest r) <= KentikMap.lng (KentikMap.northEast r)
   ∧ KentikMap.lat (KentikMap.southWest r) <= KentikMap.lat (KentikMap.northEast r))%Q.
Proof.
  intros Hwf Hr. destruct (getMapBounds_cases data r Hr) as (b & bs & Hb & Hcases).
  destruct (Hwf b) as [Hlon Hlat]; [rewrite Hb; left|].
  destruct (hull_fold_encloses bs b b) as (H1 & H2 & H3 & H4); [left|].
  destruct Hcases as [[_ ->]|[_ ->]]; simpl; split; lra.
Qed.

Lemma getMapBounds_well_formed_example :
  (∀ b, b ∈ KentikMap.boundsOf [Inputs.feature (Inputs.box 1 2 3 4); None;
                                Inputs.feature (Inputs.box (-5) 0 2 9)] →
        (GetMapData.minLon b <= GetMapData.maxLon b
         ∧ GetMapData.minLat b <= GetMapData.maxLat b)%Q)
  ∧ (KentikMap.lng (KentikMap.southWest (Spec.corners (Inputs.box (-5) 0 3 9)))
     <= KentikMap.lng (KentikMap.northEast (Spec.corners (Inputs.box (-5) 0 3 9)))
     ∧ KentikMap.lat (KentikMap.southWest (Spec.corners (Inputs.box (-5) 0 3 9)))
       <= KentikMap.lat (KentikMap.northEast (Spec.corners (Inputs.box (-5) 0 3 9))))%Q.
Proof.
  assert (∀ b, b ∈ KentikMap.boundsOf [Inputs.feature (Inputs.box 1 2 3 4); None;
                                       Inputs.feature (Inputs.box (-5) 0 2 9)] →
               (GetMapData.minLon b <= GetMapData.maxLon b
                ∧ GetMapData.minLat b <= GetMapData.maxLat b)%Q) as Hwf.
  { intros b [->|[->|Hin]%elem_of_cons]%elem_of_cons.
    - split; discriminate.
    - split; discriminate.
    - by apply elem_of_nil in Hin. }
  split; [exact Hwf|].
  apply (getMapBounds_well_formed
           [Inputs.feature (Inputs.box 1 2 3 4); None; Inputs.feature (Inputs.box (-5) 0 2 9)]
           _ Hwf).
  reflexivity.
Defined.



Section BoundsOrder.

Implicit Types (b x : GetMapData.Bound) (bs : list GetMapData.Bound).

(** The fold over a list holds the fold over any list it contains. *)
Lemma hull_fold_mono b bs b' bs' :
  (∀ x, x ∈ b :: bs → x ∈ b' :: bs') →
  Spec.encloses (fold_left Spec.hull bs' b') (fold_left Spec.hull bs b).
Proof.
  intros Hsub.
  destruct (hull_fold_attained bs b)
    as ((w & Hw & Ew) & (s & Hs & Es) & (e & He & Ee) & (n & Hn & En)).
  unfold Spec.encloses. rewrite Ew, Es, Ee, En.
  split_and!.
  - by destruct (hull_fold_encloses bs' b' w (Hsub _ Hw)) as (? & ? & ? & ?).
  - by destruct (hull_fold_encloses bs' b' s (Hsub _ Hs)) as (? & ? & ? & ?).
  - by destruct (hull_fold_encloses bs' b' e (Hsub _ He)) as (? & ? & ? & ?).
  - by destruct (hull_fold_encloses bs' b' n (Hsub _ Hn)) as (? & ? & ? & ?).
Qed.

End BoundsOrder.

(** X9.  The order of the features does not matter to [getMapBounds]:
    two inputs that are rearrangements of each other give no bound both,
    or the same rectangle. *)
Theorem getMapBounds_order_independent
    (data data' : list (option GetMapData.CountryRecord)) :
  data ≡ₚ data' →
  MapSpec.sameBounds (KentikMap.getMapBounds data) (KentikMap.getMapBounds data').
Proof.
  intros Hperm.
  assert (KentikMap.boundsOf data ≡ₚ KentikMap.boundsOf data') as Hb.
  { unfold KentikMap.boundsOf. by rewrite Hperm. }
  destruct (KentikMap.boundsOf data) as [|b bs] eqn:E;
    destruct (KentikMap.boundsOf data') as [|b' bs'] eqn:E'.
  - unfold KentikMap.getMapBounds. by rewrite E, E'.
  - by apply Permutation_nil_cons in Hb.
  - symmetry in Hb. by apply Permutation_nil_cons in Hb.
  - destruct (hull_fold_mono b bs b' bs') as (H1 & H2 & H3 & H4).
    { intros x Hx. by rewrite <- Hb. }
    destruct (hull_fold_mono b' bs' b bs) as (H1' & H2' & H3' & H4').
    { intros x Hx. by rewrite Hb. }
    destruct (KentikMap.getMapBounds data) as [r|] eqn:Hr;
      [|by rewrite (getMapBounds_folded data b bs E) in Hr].
    destruct (KentikMap.getMapBounds data') as [r'|] eqn:Hr';
      [|by rewrite (getMapBounds_folded data' b' bs' E') in Hr'].
    destruct (getMapBounds_cases data r Hr) as (b0 & bs0 & E0 & Hc).
    destruct (getMapBounds_cases data' r' Hr') as (b0' & bs0' & E0' & Hc').
    rewrite E in E0. injection E0 as <- <-.
    rewrite E' in E0'. injection E0' as <- <-.
    destruct Hc as [[[Ha Hb0] ->]|[Hn ->]]; destruct Hc' as [[[Ha' Hb0'] ->]|[Hn' ->]];
      simpl.
    + split_and!; lra.
    + destruct Hn'. split; lra.
    + destruct Hn. split; lra.
    + split_and!; lra.
Qed.

Lemma getMapBounds_order_independent_example :
  [Inputs.feature (Inputs.box 1 2 3 4); None; Inputs.feature (Inputs.box (-5) 0 2 9)]
  ≡ₚ [None; Inputs.feature (Inputs.box (-5) 0 2 9); Inputs.feature (Inputs.box 1 2 3 4)]
  ∧ MapSpec.sameBounds
      (KentikMap.getMapBounds
         [Inputs.feature (Inputs.box 1 2 3 4); None; Inputs.feature (Inputs.box (-5) 0 2 9)])
      (KentikMap.getMapBounds
         [None; Inputs.feature (Inputs.box (-5) 0 2 9); Inputs.feature (Inputs.box 1 2 3 4)]).
Proof.
  assert ([Inputs.feature (Inputs.box 1 2 3 4); None; Inputs.feature (Inputs.box (-5) 0 2 9)]
          ≡ₚ [None; Inputs.feature (Inputs.box (-5) 0 2 9);
              Inputs.feature (Inputs.box 1 2 3 4)]) as Hperm.
  { etrans; [apply perm_swap|]. apply perm_skip, perm_swap. }
  split; [exact Hperm|].
  exact (getMapBounds_order_independent _ _ Hperm).
Defined.

(* ===================================================================== *)
(** * Further properties of the Sankey transformers: order and shape       *)
(* ===================================================================== *)

Section FirstOccurrences.

Lemma elem_of_firsts (l : list string) x : x ∈ FlowSpec.firsts l ↔ x ∈ l.
Proof.
  induction l as [|y l IH]; simpl; [done|].
  rewrite !elem_of_cons, list_elem_of_filter, IH.
  destruct (decide (x = y)) as [->|Hne]; [split; by left|].
  split; [intros [?|[_ ?]]; by auto | intros [?|?]; by auto].
Qed.

Lemma firsts_snoc (l : list string) x :
  FlowSpec.firsts (l ++ [x]) = FlowSpec.firsts l ++ (if decide (x ∈ l) then [] else [x]).
Proof.
  induction l as [|y l IH]; simpl; [done|].
  rewrite IH, filter_app. do 2 f_equal.
  destruct (decide (x = y)) as [->|Hne].
  - rewrite (decide_True (P := y ∈ y :: l)) by left.
    destruct (decide (y ∈ l)); [done|].
    by rewrite filter_cons_False by (by intros ?).
  - destruct (decide (x ∈ l)) as [Hin|Hin].
    + by rewrite decide_True by (by right).
    + rewrite decide_False by (by intros [?|?]%elem_of_cons).
      by rewrite filter_cons_True.
Qed.

Lemma firstsBy_keys {V} (l : list (string * V)) :
  Js.keys (FlowSpec.firstsBy l) = FlowSpec.firsts (Js.keys l).
Proof.
  unfold Js.keys. induction l as [|[k v] l IH]; [done|].
  cbn [FlowSpec.firstsBy]. rewrite !fmap_cons. cbn [FlowSpec.firsts fst].
  f_equal. rewrite <- IH. clear IH.
  induction (FlowSpec.firstsBy l) as [|[k' v'] o IH]; [done|].
  rewrite fmap_cons. cbn [fst].
  destruct (decide (k' = k)) as [->|Hne].
  - rewrite !filter_cons_False by (by intros ?). apply IH.
  - rewrite !filter_cons_True by done. rewrite fmap_cons. by f_equal.
Qed.

Lemma firstsBy_snoc {V} (l : list (string * V)) kv :
  FlowSpec.firstsBy (l ++ [kv])
  = FlowSpec.firstsBy l ++ (if decide (kv.1 ∈ Js.keys l) then [] else [kv]).
Proof.
  unfold Js.keys. induction l as [|[k v] l IH]; [done|].
  cbn [app FlowSpec.firstsBy]. rewrite IH, filter_app, fmap_cons. cbn [fst].
  do 2 f_equal.
  destruct (decide (kv.1 = k)) as [Heq|Hne].
  - rewrite (decide_True (P := kv.1 ∈ k :: (fst <$> l))) by (rewrite Heq; left).
    destruct (decide (kv.1 ∈ fst <$> l)); [done|].
    by rewrite filter_cons_False by (by intros ?).
  - destruct (decide (kv.1 ∈ fst <$> l)) as [Hin|Hin].
    + by rewrite decide_True by (by right).
    + rewrite decide_False by (by intros [?|?]%elem_of_cons).
      by rewrite filter_cons_True.
Qed.

(** [o[k] = o[k] || fresh] over a list of keyed entries builds the
    entries in first-occurrence order. *)
Lemma ensure_fold {V} (l : list (string * V)) :
  fold_left (fun o kv => Sankey.ensure kv.1 kv.2 o) l [] = FlowSpec.firstsBy l.
Proof.
  induction l as [|kv l IH] using rev_ind; [done|].
  rewrite fold_left_app, IH, firstsBy_snoc. cbn [fold_left]. unfold Sankey.ensure.
  destruct (Js.get kv.1 (FlowSpec.firstsBy l)) as [v|] eqn:E; simpl.
  - apply get_Some_keys in E as Hin. rewrite firstsBy_keys, elem_of_firsts in Hin.
    rewrite decide_True by done. rewrite app_nil_r. by apply set_same.
  - apply get_None in E as Hin. rewrite firstsBy_keys, elem_of_firsts in Hin.
    rewrite decide_False by done. destruct kv as [k v]. by apply set_absent.
Qed.

Lemma set_add_fold (l : list string) :
  fold_left (fun s x => Js.set_add x s) l [] = FlowSpec.firsts l.
Proof.
  induction l as [|x l IH] using rev_ind; [done|].
  rewrite fold_left_app, IH, firsts_snoc. simpl. unfold Js.set_add.
  destruct (decide (x ∈ FlowSpec.firsts l)) as [Hin|Hin].
  - rewrite decide_True by (by apply elem_of_firsts). by rewrite app_nil_r.
  - rewrite decide_False; [done|]. by rewrite <- elem_of_firsts.
Qed.

Lemma keys_set {V} k (v : V) (o : Js.object V) :
  Js.keys (Js.set k v o) = Js.keys o ++ (if decide (k ∈ Js.keys o) then [] else [k]).
Proof.
  destruct (Js.get k o) as [v'|] eqn:E.
  - rewrite (set_present k v v') by done.
    rewrite decide_True by (by eapply get_Some_keys). by rewrite app_nil_r.
  - rewrite set_absent by done. rewrite decide_False by (by apply get_None).
    unfold Js.keys. by rewrite fmap_app.
Qed.

(** The values of an object are its entries read key by key. *)
Lemma values_by_key {V} (o : Js.object V) :
  NoDup (Js.keys o) → Js.values o = omap (fun k => Js.get k o) (Js.keys o).
Proof.
  unfold Js.values, Js.keys. induction o as [|[k v] o IH]; [done|].
  rewrite !fmap_cons. simpl. intros [Hk Hnd]%NoDup_cons.
  rewrite decide_True by done. f_equal. rewrite IH by done.
  apply list_omap_ext, Forall2_same_length_lookup. split; [done|].
  intros i k1 k2 H1 H2. rewrite H1 in H2. injection H2 as <-.
  rewrite decide_False; [done|]. intros ->. apply Hk. by eapply list_elem_of_lookup_2.
Qed.

Lemma elem_of_values {V} (v : V) (o : Js.object V) :
  NoDup (Js.keys o) → v ∈ Js.values o → ∃ k, Js.get k o = Some v.
Proof.
  intros Hnd Hv. rewrite (values_by_key o Hnd) in Hv.
  apply list_elem_of_omap in Hv as (k & _ & Hk). by exists k.
Qed.

End FirstOccurrences.

Section EventOrder.

Variable p : Sankey.Props.

Lemma eventNodes_as_ensure (events : list Nrql.Event) nodes :
  fold_left (Sankey.eventNodes p) events nodes
  = fold_left (fun o kv => Sankey.ensure kv.1 kv.2 o)
      (events ≫= FlowSpec.endpointsOf p) nodes.
Proof.
  revert nodes. induction events as [|item events IH]; intros nodes; [done|].
  rewrite bind_cons, fold_left_app. simpl. apply IH.
Qed.

Lemma eventLinks_keys links item :
  Js.keys (Sankey.eventLinks p links item)
  = Js.keys links
    ++ (if decide (Sankey.linkKey p item ∈ Js.keys links) then []
        else [Sankey.linkKey p item]).
Proof.
  unfold Sankey.eventLinks. rewrite keys_set.
  rewrite (decide_True (P := _ ∈ Js.keys (Js.set _ _ _)))
    by (apply elem_of_keys_set; by left).
  rewrite app_nil_r. apply keys_set.
Qed.

Lemma eventLoop_link_order (events : list Nrql.Event) :
  Js.keys (fold_left (Sankey.eventLinks p) events [])
  = FlowSpec.firsts (Sankey.linkKey p <$> events).
Proof.
  induction events as [|item events IH] using rev_ind; [done|].
  rewrite fold_left_app, fmap_app.
  change (Sankey.linkKey p <$> [item]) with [Sankey.linkKey p item].
  rewrite firsts_snoc. cbn [fold_left].
  rewrite eventLinks_keys, IH. f_equal.
  destruct (decide (Sankey.linkKey p item ∈ FlowSpec.firsts (Sankey.linkKey p <$> events)))
    as [Hin|Hin]; rewrite elem_of_firsts in Hin.
  - by rewrite decide_True.
  - by rewrite decide_False.
Qed.

End EventOrder.

(** X10.  In event mode the nodes come in the order in which their ids
    first occur when the events are read in order, the left endpoint of
    an event before its right one; each id occurs once, and a node keeps
    the name it got at that first occurrence. *)
Theorem event_nodes_in_first_occurrence_order (p : Sankey.Props)
    (series : Nrql.Series Nrql.Event) (rest : list (Nrql.Series Nrql.Event)) :
  ∃ out, Sankey.transformEventData p (series :: rest) = Js.Ok out
    ∧ Sankey.nodes out
      = (FlowSpec.firstsBy (Nrql.data series ≫= FlowSpec.endpointsOf p)).*2.
Proof.
  eexists. split; [reflexivity|]. simpl.
  unfold Sankey.eventLoop. rewrite eventLoop_split. simpl.
  by rewrite eventNodes_as_ensure, ensure_fold.
Qed.

(** X11.  In event mode the links come in the order in which their keys
    first occur among the events; the link of a key has the endpoints of
    the first event with that key and the summed weight of all events
    with that key. *)
Theorem event_links_in_first_occurrence_order (p : Sankey.Props)
    (series : Nrql.Series Nrql.Event) (rest : list (Nrql.Series Nrql.Event)) :
  ∃ out, Sankey.transformEventData p (series :: rest) = Js.Ok out
    ∧ Sankey.links out
      = omap (fun k => Spec.linkOfKey p k (Nrql.data series))
             (FlowSpec.firsts (Sankey.linkKey p <$> Nrql.data series)).
Proof.
  eexists. split; [reflexivity|]. simpl.
  rewrite values_by_key by apply eventLoop_links_NoDup.
  unfold Sankey.eventLoop at 2. rewrite eventLoop_split. simpl.
  rewrite eventLoop_link_order.
  apply list_omap_ext, Forall2_same_length_lookup. split; [done|].
  intros i k1 k2 H1 H2. rewrite H1 in H2. injection H2 as <-.
  apply eventLoop_links.
Qed.

(** X12.  In event mode every link joins two nodes of the output, from
    the left endpoint of an event to the right endpoint of the same
    event; no link starts and ends at the same node. *)
Theorem event_links_join_output_nodes (p : Sankey.Props)
    (series : Nrql.Series Nrql.Event) (rest : list (Nrql.Series Nrql.Event)) :
  ∃ out, Sankey.transformEventData p (series :: rest) = Js.Ok out
    ∧ ∀ link, link ∈ Sankey.links out →
        (∃ item, item ∈ Nrql.data series
                 ∧ Sankey.source link = Sankey.leftKey p item
                 ∧ Sankey.target link = Sankey.rightKey p item)
        ∧ Sankey.source link ∈ (Sankey.id <$> Sankey.nodes out)
        ∧ Sankey.target link ∈ (Sankey.id <$> Sankey.nodes out)
        ∧ Sankey.source link ≠ Sankey.target link.
Proof.
  eexists. split; [reflexivity|]. simpl. intros link Hlink.
  apply elem_of_values in Hlink as [k Hk]; [|apply eventLoop_links_NoDup].
  rewrite eventLoop_links in Hk. unfold Spec.linkOfKey in Hk.
  destruct (Spec.eventsOfKey p k (Nrql.data series)) as [|first others] eqn:E; [done|].
  injection Hk as <-. simpl.
  assert (first ∈ Spec.eventsOfKey p k (Nrql.data series)) as Hf by (rewrite E; left).
  apply list_elem_of_filter in Hf as [_ Hf].
  unfold Sankey.eventLoop. rewrite eventLoop_split. simpl.
  destruct (eventNodes_loop p (Nrql.data series) []) as (Hids & _ & _ & Hall);
    [constructor | constructor |].
  rewrite ids_of_values by done. destruct (Hall first Hf) as [Hl Hr].
  split_and!; [by exists first | done | done | apply left_right_suffix_differ].
Qed.

Section FacetOrder.

Implicit Types (item : Nrql.Series Nrql.Sample) (nodes : list string).

Lemma readable_lookups item :
  FlowSpec.readable item →
  ∃ f0 f1 d0,
    Sankey.facets item !! 0%nat = Some f0
    ∧ Sankey.facets item !! 1%nat = Some f1
    ∧ Nrql.data item !! 0%nat = Some d0
    ∧ FlowSpec.facetIdsOf item = [Sankey.facetKey f0; Sankey.facetKey f1].
Proof.
  intros [Hf Hd]. unfold FlowSpec.facetIdsOf.
  destruct (Sankey.facets item) as [|f0 [|f1 fs]]; simpl in Hf; [lia | lia |].
  destruct (Nrql.data item) as [|d0 ds]; simpl in Hd; [lia|].
  by exists f0, f1, d0.
Qed.

Lemma facetLoop_nodes (rawData : list (Nrql.Series Nrql.Sample)) nodes links :
  Forall FlowSpec.readable rawData →
  ∃ links',
    Sankey.facetLoop (nodes, links) rawData
    = Js.Ok (fold_left (fun s x => Js.set_add x s)
               (rawData ≫= FlowSpec.facetIdsOf) nodes, links').
Proof.
  intros Hwf. revert nodes links.
  induction Hwf as [|item rawData Hitem _ IH]; intros nodes links.
  - by exists links.
  - destruct (readable_lookups item Hitem) as (f0 & f1 & d0 & H0 & H1 & Hd & Hids).
    rewrite facetLoop_cons, (facetStep_ok _ _ _ f0 f1 d0) by done.
    rewrite bind_cons, fold_left_app, Hids. cbn [Js.bind fold_left]. apply IH.
Qed.

(** A row that lacks a facet group or a sample makes the step raise. *)
Lemma facetStep_unreadable acc item :
  ¬ FlowSpec.readable item → Sankey.facetStep acc item = Js.Throw Js.TypeError.
Proof.
  intros Hno. unfold Sankey.facetStep. destruct acc as [nodes links].
  destruct (Sankey.facets item) as [|f0 [|f1 fs]] eqn:Ef; simpl; [done | done |].
  destruct (Nrql.data item) as [|d0 ds] eqn:Ed; simpl; [done|].
  destruct Hno. unfold FlowSpec.readable. rewrite Ef, Ed. simpl. lia.
Qed.

Lemma readable_dec item : Decision (FlowSpec.readable item).
Proof. unfold FlowSpec.readable. apply _. Qed.

Lemma facetLoop_unreadable (rawData : list (Nrql.Series Nrql.Sample)) acc :
  Exists (fun item => ¬ FlowSpec.readable item) rawData →
  Sankey.facetLoop acc rawData = Js.Throw Js.TypeError.
Proof.
  intros Hex. revert acc. induction rawData as [|item rawData IH]; intros acc.
  - by apply Exists_nil in Hex.
  - rewrite facetLoop_cons. destruct (readable_dec item) as [Hok|Hno].
    + destruct (readable_lookups item Hok) as (f0 & f1 & d0 & H0 & H1 & Hd & _).
      destruct acc as [nodes links].
      rewrite (facetStep_ok _ _ _ f0 f1 d0) by done. simpl. apply IH.
      apply Exists_cons in Hex as [?|?]; done.
    + by rewrite facetStep_unreadable.
Qed.

Lemma split_head_barFree (v rest : string) :
  NameSpec.barFree v = true → Js.split_head (v +:+ "||" +:+ rest) = v.
Proof.
  induction v as [|c v IH]; simpl; [done|].
  intros [Hc Hv]%andb_true_iff. rewrite IH by done.
  destruct (Ascii.eqb_spec c "|") as [->|Hne]; [done|].
  destruct c as [[] [] [] [] [] [] [] []]; try done.
Qed.

End FacetOrder.

(** X13.  In facet mode, on rows that each carry two facet groups and a
    sample, the nodes come in the order in which their identities first
    occur when the rows are read in order, the first facet of a row
    before its second; each identity occurs once, and the name of a node
    is the part of its identity before the first ["||"]. *)
Theorem facet_nodes_in_first_occurrence_order (rawData : list (Nrql.Series Nrql.Sample)) :
  Forall FlowSpec.readable rawData →
  ∃ out, Sankey.transformFacetData rawData = Js.Ok out
    ∧ Sankey.nodes out
      = (fun node => {| Sankey.id := node; Sankey.name := Js.split_head node |})
        <$> FlowSpec.firsts (rawData ≫= FlowSpec.facetIdsOf).
Proof.
  intros Hwf. destruct (facetLoop_nodes rawData [] [] Hwf) as (links' & Hloop).
  unfold Sankey.transformFacetData. rewrite Hloop. simpl.
  eexists. split; [reflexivity|]. simpl. by rewrite set_add_fold.
Qed.

Lemma facet_nodes_in_first_occurrence_order_example :
  Forall FlowSpec.readable
    [Inputs.facetRow "10.0.0.1" "US" 7; Inputs.facetRow "10.0.0.2" "US" 9;
     Inputs.facetRow "10.0.0.1" "DE" 1]
  ∧ ∃ out,
      Sankey.transformFacetData
        [Inputs.facetRow "10.0.0.1" "US" 7; Inputs.facetRow "10.0.0.2" "US" 9;
         Inputs.facetRow "10.0.0.1" "DE" 1] = Js.Ok out
      ∧ Sankey.nodes out
        = [ {| Sankey.id := "10.0.0.1||ip_address"; Sankey.name := "10.0.0.1" |};
            {| Sankey.id := "US||country"; Sankey.name := "US" |};
            {| Sankey.id := "10.0.0.2||ip_address"; Sankey.name := "10.0.0.2" |};
            {| Sankey.id := "DE||country"; Sankey.name := "DE" |} ].
Proof.
  assert (Forall FlowSpec.readable
            [Inputs.facetRow "10.0.0.1" "US" 7; Inputs.facetRow "10.0.0.2" "US" 9;
             Inputs.facetRow "10.0.0.1" "DE" 1]) as Hwf.
  { repeat constructor. }
  split; [exact Hwf|].
  destruct (facet_nodes_in_first_occurrence_order _ Hwf) as (out & Hout & Hnodes).
  exists out. split; [exact Hout|]. rewrite Hnodes. reflexivity.
Defined.

(** X14.  In facet mode, on rows that each carry two facet groups and a
    sample, every link joins two nodes of the output. *)
Theorem facet_links_join_output_nodes (rawData : list (Nrql.Series Nrql.Sample)) :
  Forall FlowSpec.readable rawData →
  ∃ out, Sankey.transformFacetData rawData = Js.Ok out
    ∧ ∀ link, link ∈ Sankey.links out →
        Sankey.source link ∈ (Sankey.id <$> Sankey.nodes out)
        ∧ Sankey.target link ∈ (Sankey.id <$> Sankey.nodes out).
Proof.
  intros Hwf.
  destruct (facetLoop_ok rawData [] [] Hwf) as (nodes' & links' & Hloop & Hlinks & _ & Hnodes);
    [constructor|].
  unfold Sankey.transformFacetData. rewrite Hloop. simpl.
  eexists. split; [reflexivity|]. simpl. rewrite node_ids.
  intros link [i Hi]%list_elem_of_lookup.
  destruct (Forall2_lookup_r _ _ _ _ _ Hlinks Hi) as (item & Hitem & f0 & f1 & d0 & H0 & H1 & _ & ->).
  apply list_elem_of_lookup_2 in Hitem. simpl.
  split; apply Hnodes; right; [exists item, f0 | exists item, f1]; auto.
Qed.

Lemma facet_links_join_output_nodes_example :
  Forall FlowSpec.readable
    [Inputs.facetRow "10.0.0.1" "US" 7; Inputs.facetRow "10.0.0.2" "US" 9]
  ∧ ∃ out,
      Sankey.transformFacetData
        [Inputs.facetRow "10.0.0.1" "US" 7; Inputs.facetRow "10.0.0.2" "US" 9] = Js.Ok out
      ∧ ∀ link, link ∈ Sankey.links out →
          Sankey.source link ∈ (Sankey.id <$> Sankey.nodes out)
          ∧ Sankey.target link ∈ (Sankey.id <$> Sankey.nodes out).
Proof.
  assert (Forall FlowSpec.readable
            [Inputs.facetRow "10.0.0.1" "US" 7; Inputs.facetRow "10.0.0.2" "US" 9]) as Hwf.
  { repeat constructor. }
  split; [exact Hwf|].
  exact (facet_links_join_output_nodes _ Hwf).
Defined.

(** X15.  In facet mode the transformer raises (a TypeError) exactly when
    some row has fewer than two facet groups or no sample; otherwise it
    returns a graph. *)
Theorem transformFacetData_raises_iff (rawData : list (Nrql.Series Nrql.Sample)) :
  (Sankey.transformFacetData rawData = Js.Throw Js.TypeError
   ↔ ∃ item, item ∈ rawData
             ∧ (length (Sankey.facets item) < 2 ∨ length (Nrql.data item) < 1))
  ∧ ((∃ out, Sankey.transformFacetData rawData = Js.Ok out)
     ↔ Forall FlowSpec.readable rawData).
Proof.
  assert (Forall FlowSpec.readable rawData →
          ∃ out, Sankey.transformFacetData rawData = Js.Ok out) as Hok.
  { intros Hwf. destruct (facetLoop_nodes rawData [] [] Hwf) as (links' & Hloop).
    unfold Sankey.transformFacetData. rewrite Hloop. simpl. by eexists. }
  assert (Exists (fun item => ¬ FlowSpec.readable item) rawData →
          Sankey.transformFacetData rawData = Js.Throw Js.TypeError) as Hthrow.
  { intros Hex. unfold Sankey.transformFacetData. by rewrite facetLoop_unreadable. }
  assert (Forall FlowSpec.readable rawData
          ∨ Exists (fun item => ¬ FlowSpec.readable item) rawData) as Hdec.
  { destruct (Forall_Exists_dec FlowSpec.readable (fun item => ¬ FlowSpec.readable item)
                (fun item => readable_dec item) rawData); auto. }
  split; split.
  - intros Hraise. destruct Hdec as [Hwf|Hex].
    + destruct (Hok Hwf) as [out Hout]. congruence.
    + apply Exists_exists in Hex as (item & Hin & Hno). exists item. split; [done|].
      unfold FlowSpec.readable in Hno. lia.
  - intros (item & Hin & Hbad). apply Hthrow, Exists_exists. exists item. split; [done|].
    unfold FlowSpec.readable. lia.
  - intros [out Hout]. destruct Hdec as [Hwf|Hex]; [done|].
    rewrite (Hthrow Hex) in Hout. discriminate.
  - exact Hok.
Qed.

(** X16.  In facet mode the display name of a node is its facet value
    whenever that value holds no ["|"]: for each of the first two facet
    groups of a row, the node with the group's identity and the group's
    value as its name is in the output. *)
Theorem facet_node_name_is_value (rawData : list (Nrql.Series Nrql.Sample))
    (item : Nrql.Series Nrql.Sample) (f : Nrql.Group) :
  Forall FlowSpec.readable rawData →
  item ∈ rawData → f ∈ take 2 (Sankey.facets item) →
  NameSpec.barFree (Js.toString (Nrql.value f)) = true →
  ∃ out, Sankey.transformFacetData rawData = Js.Ok out
    ∧ {| Sankey.id := Sankey.facetKey f; Sankey.name := Js.toString (Nrql.value f) |}
      ∈ Sankey.nodes out.
Proof.
  intros Hwf Hitem Hf Hbar.
  destruct (facetLoop_nodes rawData [] [] Hwf) as (links' & Hloop).
  unfold Sankey.transformFacetData. rewrite Hloop. simpl.
  eexists. split; [reflexivity|]. simpl. rewrite set_add_fold.
  apply list_elem_of_fmap. exists (Sankey.facetKey f). split.
  - f_equal. unfold Sankey.facetKey. by rewrite split_head_barFree.
  - apply elem_of_firsts, list_elem_of_bind. exists item. split; [|done].
    unfold FlowSpec.facetIdsOf. by apply list_elem_of_fmap_2.
Qed.

Lemma facet_node_name_is_value_example :
  ∃ out,
    Sankey.transformFacetData
      [Inputs.facetRow "10.0.0.1" "US" 7; Inputs.facetRow "10.0.0.2" "US" 9] = Js.Ok out
    ∧ {| Sankey.id := "10.0.0.2||ip_address"; Sankey.name := "10.0.0.2" |}
      ∈ Sankey.nodes out.
Proof.
  apply (facet_node_name_is_value
           [Inputs.facetRow "10.0.0.1" "US" 7; Inputs.facetRow "10.0.0.2" "US" 9]
           (Inputs.facetRow "10.0.0.2" "US" 9)
           {| Nrql.type := "facet"; Nrql.name := "ip_address";
              Nrql.value := Js.Str "10.0.0.2" |}).
  - repeat constructor.
  - right. left.
  - left.
  - reflexivity.
Defined.

(* ===================================================================== *)
(** * Further properties of the magnitude scaling                          *)
(* ===================================================================== *)

Section NotANumber.

Lemma add_nan_l (x y : float) :
  Prim2SF x = S754_nan → Prim2SF (x + y)%float = S754_nan.
Proof. intros H. rewrite FloatAxioms.add_spec, H. reflexivity. Qed.

Lemma add_nan_r (x y : float) :
  Prim2SF y = S754_nan → Prim2SF (x + y)%float = S754_nan.
Proof. intros H. rewrite FloatAxioms.add_spec, H. by destruct (Prim2SF x). Qed.

Lemma div_nan_l (x y : float) :
  Prim2SF x = S754_nan → Prim2SF (x / y)%float = S754_nan.
Proof. intros H. rewrite FloatAxioms.div_spec, H. reflexivity. Qed.

Lemma ltb_nan_r (x y : float) : Prim2SF y = S754_nan → (x <? y)%float = false.
Proof. intros H. rewrite FloatAxioms.ltb_spec, H. by destruct (Prim2SF x). Qed.

(** The sum of [parseFloat] over an array is not a number once an entry
    is [undefined]. *)
Lemma parsed_total_nan (data : list (option float)) (acc : float) :
  Prim2SF acc = S754_nan ∨ None ∈ data →
  Prim2SF (fold_left (fun sum row => (sum + GreekPrefixing.parseFloat row)%float) data acc)
  = S754_nan.
Proof.
  revert acc. induction data as [|row data IH]; intros acc H; simpl.
  - destruct H as [?|H]; [done|]. by apply elem_of_nil in H.
  - apply IH. destruct H as [H|[<-|H]%elem_of_cons].
    + left. by apply add_nan_l.
    + left. by apply add_nan_r.
    + by right.
Qed.

Lemma adjust_nan (v : float) (prefix : string) :
  Prim2SF v = S754_nan →
  Prim2SF (GreekPrefixing.adjustByGreekPrefix v prefix) = S754_nan.
Proof.
  intros H. unfold GreekPrefixing.adjustByGreekPrefix.
  destruct (List.find _ _); [by apply div_nan_l | done].
Qed.

Lemma no_samples (data : list (option float)) :
  Forall (fun d => d = None) data → omap (fun datum => datum) data = [].
Proof. induction 1 as [|d data -> _ IH]; [done|]. simpl. exact IH. Qed.

End NotANumber.

Lemma formatBytesGreek_undefined_entry_helper (numberToString : float → string)
    (data : list (option float)) (suffix : option string) (scaleMax : option float) :
  None ∈ data →
  GreekPrefixing.formatBytesGreek numberToString (GreekPrefixing.Array data) suffix scaleMax
  = "NaN " +:+ GreekPrefixing.greekPrefix data scaleMax +:+ default "B" suffix.
Proof.
  intros Hin. unfold GreekPrefixing.formatBytesGreek, GreekPrefixing.toFixed.
  rewrite adjust_nan; [done|]. apply parsed_total_nan. by right.
Qed.

(** X17.  An array with an [undefined] entry formats as not a number,
    whatever its other entries: the result is ["NaN "], then the prefix
    chosen for the array, then the suffix. *)
Theorem formatBytesGreek_undefined_entry (numberToString : float → string)
    (data : list (option float)) (suffix : option string) (scaleMax : option float) :
  None ∈ data →
  GreekPrefixing.formatBytesGreek numberToString (GreekPrefixing.Array data) suffix scaleMax
  = "NaN " +:+ GreekPrefixing.greekPrefix data scaleMax +:+ default "B" suffix.
Proof. apply formatBytesGreek_undefined_entry_helper. Qed.

Lemma formatBytesGreek_undefined_entry_example :
  None ∈ [Some 6000%float; None; Some 6000%float]
  ∧ GreekPrefixing.formatBytesGreek (fun _ => "")
      (GreekPrefixing.Array [Some 6000%float; None; Some 6000%float]) (Some "B") None
    = "NaN KB".
Proof.
  assert (None ∈ [Some 6000%float; None; Some 6000%float]) as Hin by (right; left).
  split; [exact Hin|].
  rewrite (formatBytesGreek_undefined_entry (fun _ => "") _ (Some "B") None Hin).
  vm_compute. reflexivity.
Defined.

(** X18.  With no defined sample there is no prefix, whatever [scaleMax]:
    an array of [undefined] entries formats as ["NaN "] and the suffix,
    the empty array as ["0 "] and the suffix, and [undefined] itself as
    ["NaN "] and the suffix. *)
Theorem formatBytesGreek_no_samples (numberToString : float → string)
    (data : list (option float)) (suffix : option string) (scaleMax : option float) :
  Forall (fun d => d = None) data →
  GreekPrefixing.greekPrefix data scaleMax = ""
  ∧ GreekPrefixing.formatBytesGreek numberToString (GreekPrefixing.Array data)
      suffix scaleMax
    = (match data with [] => "0 " | _ :: _ => "NaN " end) +:+ default "B" suffix
  ∧ GreekPrefixing.formatBytesGreek numberToString (GreekPrefixing.Scalar None)
      suffix scaleMax
    = "NaN " +:+ default "B" suffix.
Proof.
  intros Hnone.
  assert (∀ data', omap (fun datum => datum) data' = [] →
                   GreekPrefixing.greekPrefix data' scaleMax = "") as Hprefix.
  { intros data' Hempty.
    unfold GreekPrefixing.greekPrefix, GreekPrefixing.nStdDeviations,
      GreekPrefixing.calculateStdDeviation.
    rewrite Hempty. unfold GreekPrefixing.PREFIXES, GreekPrefixing.gt. simpl.
    rewrite !ltb_nan_r; [done | by vm_compute ..]. }
  split_and!.
  - by apply Hprefix, no_samples.
  - destruct data as [|d data].
    + unfold GreekPrefixing.formatBytesGreek. rewrite Hprefix by done. reflexivity.
    + rewrite formatBytesGreek_undefined_entry_helper.
      * rewrite Hprefix by (by apply no_samples). done.
      * apply Forall_cons in Hnone as [-> _]. left.
  - unfold GreekPrefixing.formatBytesGreek. rewrite Hprefix by done. reflexivity.
Qed.

Lemma formatBytesGreek_no_samples_example :
  Forall (fun d : option float => d = None) [None; None]
  ∧ GreekPrefixing.greekPrefix [None; None] (Some 1%float) = ""
  ∧ GreekPrefixing.formatBytesGreek (fun _ => "") (GreekPrefixing.Array [None; None])
      (Some "bits/s") (Some 1%float)
    = "NaN bits/s"
  ∧ GreekPrefixing.formatBytesGreek (fun _ => "") (GreekPrefixing.Scalar None)
      (Some "bits/s") (Some 1%float)
    = "NaN bits/s".
Proof.
  assert (Forall (fun d : option float => d = None) [None; None]) as Hnone
    by (repeat constructor).
  split; [exact Hnone|].
  exact (formatBytesGreek_no_samples (fun _ => "") [None; None] (Some "bits/s")
           (Some 1%float) Hnone).
Defined.

Lemma find_split {A} (f : A → bool) (l : list A) :
  match List.find f l with
  | Some x => ∃ before after,
                l = before ++ x :: after ∧ f x = true
                ∧ Forall (fun y => f y = false) before
  | None => Forall (fun y => f y = false) l
  end.
Proof.
  induction l as [|y l IH]; simpl; [constructor|].
  destruct (f y) eqn:Hy.
  - exists [], l. by split_and!.
  - destruct (List.find f l) as [x|].
    + destruct IH as (before & after & -> & Hx & Hbefore).
      exists (y :: before), after. split_and!; [done | done | by constructor].
    + by constructor.
Qed.

(** X19.  Whatever the samples, [greekPrefix] gives either no prefix,
    and then no quotient is above [scaleMax], or the symbol of a prefix
    of the table whose quotient is strictly above [scaleMax] while the
    quotients of all larger prefixes are not; [adjustByGreekPrefix]
    divides by the magnitude of exactly that prefix, and leaves the
    value as it is when there is no prefix. *)
Theorem greekPrefix_largest_passing (data : list (option float))
    (scaleMax : option float) :
  (GreekPrefixing.greekPrefix data scaleMax = ""
   ∧ Forall (fun q =>
               GreekPrefixing.gt
                 (GreekPrefixing.nStdDeviations data 2 / GreekPrefixing.magnitude q)%float
                 (default 5%float scaleMax) = false) GreekPrefixing.PREFIXES
   ∧ ∀ v, GreekPrefixing.adjustByGreekPrefix v "" = v)
  ∨ ∃ before pf after,
      GreekPrefixing.PREFIXES = before ++ pf :: after
      ∧ GreekPrefixing.greekPrefix data scaleMax = GreekPrefixing.value pf
      ∧ GreekPrefixing.gt
          (GreekPrefixing.nStdDeviations data 2 / GreekPrefixing.magnitude pf)%float
          (default 5%float scaleMax) = true
      ∧ Forall (fun q =>
                  GreekPrefixing.gt
                    (GreekPrefixing.nStdDeviations data 2 / GreekPrefixing.magnitude q)%float
                    (default 5%float scaleMax) = false) before
      ∧ ∀ v, GreekPrefixing.adjustByGreekPrefix v (GreekPrefixing.value pf)
             = (v / GreekPrefixing.magnitude pf)%float.
Proof.
  unfold GreekPrefixing.greekPrefix.
  pose proof (find_split
                (fun pf => GreekPrefixing.gt
                   (GreekPrefixing.nStdDeviations data 2 / GreekPrefixing.magnitude pf)%float
                   (default 5%float scaleMax)) GreekPrefixing.PREFIXES) as Hfind.
  destruct (List.find _ GreekPrefixing.PREFIXES) as [pf|].
  - right. destruct Hfind as (before & after & Hsplit & Hpf & Hbefore).
    exists before, pf, after. split_and!; [done | done | done | done |].
    assert (pf ∈ GreekPrefixing.PREFIXES) as Hin
      by (rewrite Hsplit; apply elem_of_app; right; left).
    unfold GreekPrefixing.PREFIXES in Hin.
    repeat (apply elem_of_cons in Hin as [->|Hin]; [by intros v|]).
    by apply elem_of_nil in Hin.
  - left. by split_and!.
Qed.

(* ===================================================================== *)
(** * What the map shows                                                   *)
(* ===================================================================== *)

(** X20.  The fill of a feature follows the aggregate index by the
    feature's id, compared as it is written: when the last row of the
    batch whose country equals the id stands at position [i], the fill
    is the palette entry at [i] (none beyond the palette); when no row
    has the id as its country and the index had no entry for it, there
    is no fill, even though the feature itself may have been found
    through the lower-cased code. *)
Theorem handleStyleFeature_fill (colors : list string) (data : list KentikMap.Row)
    (st : KentikMap.State) (feature : GetMapData.CountryRecord) :
  (∀ i row,
     data !! i = Some row →
     KentikMap.countryOf row = Js.Str (GetMapData.id feature) →
     GetMapData.id feature ≠ "" →
     (∀ j row', i < j → data !! j = Some row' →
                KentikMap.countryOf row' ≠ Js.Str (GetMapData.id feature)) →
     ∃ features st',
       KentikMap.transformData data st = Js.Ok (features, st')
       ∧ MapView.handleStyleFeature colors feature st'
         = Some {| MapView.color := "#000"; MapView.weight := 1%float;
                   MapView.fillColor := colors !! i;
                   MapView.fillOpacity := 0.75%float |})
  ∧ ((∀ row, row ∈ data → KentikMap.countryOf row ≠ Js.Str (GetMapData.id feature)) →
     KentikMap.getDataForCountry (GetMapData.id feature) st = None →
     ∃ features st',
       KentikMap.transformData data st = Js.Ok (features, st')
       ∧ MapView.handleStyleFeature colors feature st'
         = Some {| MapView.color := "#000"; MapView.weight := 1%float;
                   MapView.fillColor := None;
                   MapView.fillOpacity := 0.75%float |}).
Proof.
  split.
  - intros i row Hi Hc Hne Hlast.
    destruct (transformFrom_last_row data 0 st i row _ Hi Hc Hne Hlast)
      as (features & st' & Hrun & Hentry).
    exists features, st'. split; [done|].
    unfold MapView.handleStyleFeature, KentikMap.getDataForCountry. by rewrite Hentry.
  - intros Hno Hnone.
    destruct (transformFrom_frame data 0 st _ Hno) as (features & st' & Hrun & _ & Hkeep).
    exists features, st'. split; [done|].
    unfold MapView.handleStyleFeature, KentikMap.getDataForCountry in *.
    by rewrite Hkeep, Hnone.
Qed.

Lemma handleStyleFeature_fill_example :
  ∃ features st',
    KentikMap.transformData [Inputs.countryRow "US" 3] (KentikMap.initial Inputs.tables)
    = Js.Ok (features, st')
    ∧ features = [Some {| GetMapData.id := "USA"; GetMapData.name := "United States";
                          GetMapData.bounds := Some Inputs.usBound |}]
    ∧ MapView.handleStyleFeature ["#111"; "#222"]
        {| GetMapData.id := "USA"; GetMapData.name := "United States";
           GetMapData.bounds := Some Inputs.usBound |} st'
      = Some {| MapView.color := "#000"; MapView.weight := 1%float;
                MapView.fillColor := None; MapView.fillOpacity := 0.75%float |}
    ∧ MapView.handleStyleFeature ["#111"; "#222"]
        {| GetMapData.id := "US"; GetMapData.name := "United States";
           GetMapData.bounds := Some Inputs.usBound |} st'
      = Some {| MapView.color := "#000"; MapView.weight := 1%float;
                MapView.fillColor := Some "#111"; MapView.fillOpacity := 0.75%float |}.
Proof.
  destruct (proj2 (handleStyleFeature_fill ["#111"; "#222"] [Inputs.countryRow "US" 3]
                     (KentikMap.initial Inputs.tables)
                     {| GetMapData.id := "USA"; GetMapData.name := "United States";
                        GetMapData.bounds := Some Inputs.usBound |}))
    as (features & st' & Hrun & Hstyle).
  { intros row ->%list_elem_of_singleton. discriminate. }
  { reflexivity. }
  exists features, st'. split; [exact Hrun|].
  injection Hrun as <- <-. split_and!; [reflexivity | exact Hstyle | reflexivity].
Defined.

Section MapElement.

Lemma or_else_truthy (x : option float) (d : float) :
  JsNumber.truthy d = true → JsNumber.truthy (JsNumber.or_else x d) = true.
Proof.
  intros Hd. unfold JsNumber.or_else. destruct x as [v|]; [|done].
  by destruct (JsNumber.truthy v) eqn:Hv.
Qed.

End MapElement.

(** X21.  [renderMap] never raises, and the centre and the zoom it hands
    to the map are never zero and never NaN: a configured value is used
    when it is a number other than zero, and the default otherwise (30,
    -40 and 3), so a configured latitude, longitude or zoom of 0 is
    replaced. *)
Theorem renderMap_centre_and_zoom (props : MapView.Props) (data : list KentikMap.Row)
    (st : KentikMap.State) :
  ∃ element st',
    MapView.renderMap props data st = Js.Ok (element, st')
    ∧ JsNumber.truthy (MapView.center element).1 = true
    ∧ JsNumber.truthy (MapView.center element).2 = true
    ∧ JsNumber.truthy (MapView.zoom element) = true
    ∧ (∀ v, MapView.initialLat props = Some v → JsNumber.truthy v = true →
            (MapView.center element).1 = v)
    ∧ (∀ v, MapView.initialLng props = Some v → JsNumber.truthy v = true →
            (MapView.center element).2 = v)
    ∧ (∀ v, MapView.initialZoom props = Some v → JsNumber.truthy v = true →
            MapView.zoom element = v)
    ∧ (MapView.initialLat props = Some 0%float → (MapView.center element).1 = 30%float)
    ∧ (MapView.initialLng props = Some 0%float → (MapView.center element).2 = (-40)%float)
    ∧ (MapView.initialZoom props = Some 0%float → MapView.zoom element = 3%float).
Proof.
  destruct (transformFrom_features data 0 st (KentikMap.tables st)) as (st' & Hrun & _);
    [done|].
  unfold MapView.renderMap, KentikMap.transformData. rewrite Hrun. simpl.
  eexists _, _. split; [reflexivity|]. simpl.
  split_and!; try (by apply or_else_truthy).
  - intros v -> Hv. simpl. by rewrite Hv.
  - intros v -> Hv. simpl. by rewrite Hv.
  - intros v -> Hv. simpl. by rewrite Hv.
  - by intros ->.
  - by intros ->.
  - by intros ->.
Qed.

(** X22.  With [autoZoom] off no bounds are handed to the map; with it
    on, the bounds hold the table bound of every row of the batch whose
    country has one.  The layer gets one feature per row. *)
Theorem renderMap_viewport (props : MapView.Props) (data : list KentikMap.Row)
    (st : KentikMap.State) :
  ∃ element st',
    MapView.renderMap props data st = Js.Ok (element, st')
    ∧ MapView.geoJSON element = MapSpec.featureOf (KentikMap.tables st) <$> data
    ∧ (MapView.autoZoom props = false → MapView.bounds element = None)
    ∧ (MapView.autoZoom props = true →
       ∀ row b,
         row ∈ data →
         MapSpec.featureOf (KentikMap.tables st) row ≫= GetMapData.bounds = Some b →
         ∃ r, MapView.bounds element = Some r
           ∧ (KentikMap.lng (KentikMap.southWest r) <= GetMapData.minLon b
              ∧ KentikMap.lat (KentikMap.southWest r) <= GetMapData.minLat b
              ∧ GetMapData.maxLon b <= KentikMap.lng (KentikMap.northEast r)
              ∧ GetMapData.maxLat b <= KentikMap.lat (KentikMap.northEast r))%Q).
Proof.
  destruct (transformFrom_features data 0 st (KentikMap.tables st)) as (st' & Hrun & _);
    [done|].
  unfold MapView.renderMap, KentikMap.transformData. rewrite Hrun. simpl.
  eexists _, _. split; [reflexivity|]. simpl.
  split_and!; [done | by intros -> |].
  intros -> row b Hrow Hb.
  assert (b ∈ KentikMap.boundsOf (MapSpec.featureOf (KentikMap.tables st) <$> data)) as Hin.
  { unfold KentikMap.boundsOf. apply list_elem_of_omap.
    exists (MapSpec.featureOf (KentikMap.tables st) row). split; [|done].
    by apply list_elem_of_fmap_2. }
  destruct (KentikMap.boundsOf _) as [|b0 bs] eqn:Hbs; [by apply elem_of_nil in Hin|].
  rewrite (getMapBounds_folded _ b0 bs Hbs).
  pose proof (hull_fold_encloses bs b0 b Hin) as Henc.
  eexists. split; [reflexivity|]. destruct (_ && _).
  - by apply grown_encloses.
  - exact Henc.
Qed.

(* ===================================================================== *)
(** * What the Sankey component shows                                      *)
(* ===================================================================== *)

Section QueryText.

Lemma string_app_cons (x : ascii) (a b : string) :
  String x a +:+ b = String x (a +:+ b).
Proof. reflexivity. Qed.

Lemma string_app_assoc (a b c : string) : (a +:+ b) +:+ c = a +:+ b +:+ c.
Proof. induction a as [|x a IH]; [done|]. exact (f_equal (String x) IH). Qed.

Lemma prefix_spec (needle text : string) :
  String.prefix needle text = true ↔ ∃ after, text = needle +:+ after.
Proof.
  revert text. induction needle as [|c needle IH]; intros text.
  - destruct text; (split; [intros _; by eexists | done]).
  - destruct text as [|d text]; simpl.
    + split; [done | by intros [? ?]].
    + destruct (ascii_dec c d) as [->|Hne].
      * rewrite IH. split; intros [after H]; exists after;
          rewrite string_app_cons in *; congruence.
      * split; [done|]. intros [after H]. rewrite string_app_cons in H. congruence.
Qed.

Lemma includes_unfold (text needle : string) :
  SankeyView.includes text needle
  = String.prefix needle text
    || match text with
       | EmptyString => false
       | String _ text' => SankeyView.includes text' needle
       end.
Proof. by destruct text. Qed.

Lemma includes_spec (text needle : string) :
  SankeyView.includes text needle = true ↔ TextSpec.occursIn needle text.
Proof.
  unfold TextSpec.occursIn. induction text as [|c text IH]; rewrite includes_unfold.
  - rewrite orb_false_r, prefix_spec. split.
    + intros [after H]. by exists "", after.
    + intros ([|? ?] & after & H); [by exists after | done].
  - rewrite orb_true_iff, prefix_spec, IH. split.
    + intros [[after H]|(before & after & H)].
      * by exists "", after.
      * exists (String c before), after. rewrite string_app_cons. by rewrite H.
    + intros ([|d before] & after & H).
      * left. by exists after.
      * right. exists before, after. rewrite string_app_cons in H. congruence.
Qed.

Lemma occursIn_grow (needle text before after : string) :
  TextSpec.occursIn needle text →
  TextSpec.occursIn needle (before +:+ text +:+ after).
Proof.
  intros (a & b & ->). exists (before +:+ a), (b +:+ after).
  by rewrite !string_app_assoc.
Qed.

End QueryText.

Section Gate.

Implicit Types (props : SankeyView.Props).

Lemma validateNrql_ok props text :
  SankeyView.queryText props = Js.Ok text →
  SankeyView.validateNrql props
  = Js.Ok (SankeyView.includes text (Js.toString (SankeyView.dimensionLeft props))
           && SankeyView.includes text (Js.toString (SankeyView.dimensionRight props))
           && SankeyView.includes text "in_bytes"
           && SankeyView.includes text "sample_rate").
Proof.
  intros Htext. unfold SankeyView.validateNrql. simpl. rewrite Htext. simpl.
  repeat (destruct (SankeyView.includes text _); simpl; [|done]). done.
Qed.

Lemma validateNrql_throw props :
  SankeyView.queryText props = Js.Throw Js.TypeError →
  SankeyView.validateNrql props = Js.Throw Js.TypeError.
Proof. intros H. unfold SankeyView.validateNrql. simpl. by rewrite H. Qed.

Lemma truthy_Str (v : Js.value) :
  Js.truthy v = true ↔ ∃ s, v = Js.Str s ∧ s ≠ "".
Proof.
  destruct v as [| |[|c s]]; simpl; split; try done.
  - by intros (s & ? & ?).
  - by intros (s & ? & ?).
  - intros (s & [= <-] & ?). done.
  - intros _. by eexists.
Qed.

(** The gate, case by case. *)
Lemma nrqlQueryPropsAvailable_cases props :
  ∃ ok,
    SankeyView.nrqlQueryPropsAvailable props = Js.Ok ok
    ∧ (ok = true ↔
       ∃ left right q rest account text,
         SankeyView.dimensionLeft props = Js.Str left ∧ left ≠ ""
         ∧ SankeyView.dimensionRight props = Js.Str right ∧ right ≠ ""
         ∧ SankeyView.nrqlQueries props = Some (q :: rest)
         ∧ SankeyView.accountId q = Some account ∧ JsNumber.truthy account = true
         ∧ SankeyView.query q = Js.Str text ∧ text ≠ ""
         ∧ TextSpec.occursIn left text ∧ TextSpec.occursIn right text
         ∧ TextSpec.occursIn "in_bytes" text ∧ TextSpec.occursIn "sample_rate" text).
Proof.
  unfold SankeyView.nrqlQueryPropsAvailable.
  destruct (Js.truthy (SankeyView.dimensionLeft props)) eqn:Hl; simpl.
  2:{ exists false. split; [done|]. split; [done|].
      intros (left & right & q & rest & account & text & Hleft & Hne & _).
      assert (Js.truthy (SankeyView.dimensionLeft props) = true)
        by (apply truthy_Str; eauto). congruence. }
  destruct (Js.truthy (SankeyView.dimensionRight props)) eqn:Hr; simpl.
  2:{ exists false. split; [done|]. split; [done|].
      intros (left & right & q & rest & account & text & _ & _ & Hright & Hne & _).
      assert (Js.truthy (SankeyView.dimensionRight props) = true)
        by (apply truthy_Str; eauto). congruence. }
  apply truthy_Str in Hl as (left & Hleft & Hlne).
  apply truthy_Str in Hr as (right & Hright & Hrne).
  destruct (SankeyView.nrqlQueries props) as [[|q rest]|] eqn:Hq; simpl.
  3:{ exists false. split; [done|]. split; [done|].
      by intros (? & ? & ? & ? & ? & ? & _ & _ & _ & _ & ? & _). }
  1:{ exists false. split; [done|]. split; [done|].
      by intros (? & ? & ? & ? & ? & ? & _ & _ & _ & _ & ? & _). }
  destruct (SankeyView.accountId q) as [account|] eqn:Ha; simpl.
  2:{ exists false. split; [done|]. split; [done|].
      intros (? & ? & ? & ? & ? & ? & _ & _ & _ & _ & [= <- <-] & ? & _). congruence. }
  destruct (JsNumber.truthy account) eqn:Hacc; simpl.
  2:{ exists false. split; [done|]. split; [done|].
      intros (? & ? & ? & ? & ? & ? & _ & _ & _ & _ & [= <- <-] & ? & ? & _). congruence. }
  destruct (Js.truthy (SankeyView.query q)) eqn:Ht; simpl.
  2:{ exists false. split; [done|]. split; [done|].
      intros (? & ? & ? & ? & ? & text & _ & _ & _ & _ & [= <- <-] & _ & _ & Htext & Hne & _).
      assert (Js.truthy (SankeyView.query q) = true) by (apply truthy_Str; eauto).
      congruence. }
  apply truthy_Str in Ht as (text & Htext & Htne).
  rewrite (validateNrql_ok props text) by (unfold SankeyView.queryText; rewrite Hq; simpl; by rewrite Htext).
  eexists. split; [reflexivity|]. rewrite Hleft, Hright. simpl.
  rewrite !andb_true_iff, !includes_spec. split.
  - intros [[[? ?] ?] ?]. exists left, right, q, rest, account, text. by split_and!.
  - intros (left' & right' & q' & rest' & account' & text' & [= <-] & _ & [= <-] & _
            & [= <- <-] & _ & _ & Htext' & _ & ? & ? & ? & ?).
    rewrite Htext in Htext'. injection Htext' as <-. done.
Qed.

End Gate.

(** X23.  The gate of [render] never raises, although [validateNrql] on
    its own can: it holds exactly when both dimensions are non-empty
    strings and the first query has an account id other than zero and a
    non-empty text in which both dimension names, ["in_bytes"] and
    ["sample_rate"] occur. *)
Theorem nrqlQueryPropsAvailable_iff (props : SankeyView.Props) :
  ∃ ok,
    SankeyView.nrqlQueryPropsAvailable props = Js.Ok ok
    ∧ (ok = true ↔
       ∃ left right q rest account text,
         SankeyView.dimensionLeft props = Js.Str left ∧ left ≠ ""
         ∧ SankeyView.dimensionRight props = Js.Str right ∧ right ≠ ""
         ∧ SankeyView.nrqlQueries props = Some (q :: rest)
         ∧ SankeyView.accountId q = Some account ∧ JsNumber.truthy account = true
         ∧ SankeyView.query q = Js.Str text ∧ text ≠ ""
         ∧ TextSpec.occursIn left text ∧ TextSpec.occursIn right text
         ∧ TextSpec.occursIn "in_bytes" text ∧ TextSpec.occursIn "sample_rate" text).
Proof. apply nrqlQueryPropsAvailable_cases. Qed.

(** X24.  [validateNrql] raises (a TypeError) exactly when there is no
    first query to read a text from: the [nrqlQueries] prop is missing
    or empty, or the [query] of its first entry is no string. *)
Theorem validateNrql_raises_iff (props : SankeyView.Props) :
  SankeyView.validateNrql props = Js.Throw Js.TypeError
  ↔ SankeyView.nrqlQueries props = None
    ∨ SankeyView.nrqlQueries props = Some []
    ∨ ∃ q rest, SankeyView.nrqlQueries props = Some (q :: rest)
                ∧ ∀ text, SankeyView.query q ≠ Js.Str text.
Proof.
  destruct (SankeyView.queryText props) as [text|[]] eqn:Htext.
  - rewrite (validateNrql_ok props text Htext). split; [done|].
    unfold SankeyView.queryText in Htext.
    intros [H|[H|(q & rest & H & Hno)]]; rewrite H in Htext; simpl in Htext; try done.
    destruct (SankeyView.query q) as [| |t] eqn:E; try done. by destruct (Hno t).
  - rewrite (validateNrql_throw props Htext). split; [|done]. intros _.
    unfold SankeyView.queryText in Htext.
    destruct (SankeyView.nrqlQueries props) as [[|q rest]|]; [by auto | | by auto].
    right. right. exists q, rest. split; [done|]. intros text Hq. simpl in Htext.
    by rewrite Hq in Htext.
Qed.

(** X25.  The check is by occurrence only: once the gate holds for a
    query text, it holds for every text that contains it, whatever is
    put before or after. *)
Theorem nrqlQueryPropsAvailable_grows (left right : Js.value) (account : option float)
    (text before after : string) (rest : list SankeyView.NrqlQuery) (table : bool) :
  SankeyView.nrqlQueryPropsAvailable
    {| SankeyView.dimensionLeft := left; SankeyView.dimensionRight := right;
       SankeyView.nrqlQueries :=
         Some ({| SankeyView.accountId := account; SankeyView.query := Js.Str text |}
               :: rest);
       SankeyView.showTable := table |} = Js.Ok true →
  SankeyView.nrqlQueryPropsAvailable
    {| SankeyView.dimensionLeft := left; SankeyView.dimensionRight := right;
       SankeyView.nrqlQueries :=
         Some ({| SankeyView.accountId := account;
                  SankeyView.query := Js.Str (before +:+ text +:+ after) |} :: rest);
       SankeyView.showTable := table |} = Js.Ok true.
Proof.
  intros Hok.
  destruct (nrqlQueryPropsAvailable_cases
              {| SankeyView.dimensionLeft := left; SankeyView.dimensionRight := right;
                 SankeyView.nrqlQueries :=
                   Some ({| SankeyView.accountId := account;
                            SankeyView.query := Js.Str text |} :: rest);
                 SankeyView.showTable := table |}) as (ok & Hrun & Hiff).
  rewrite Hrun in Hok. injection Hok as ->.
  destruct (proj1 Hiff eq_refl)
    as (l & r & q & rest' & acc & text' & Hl & Hlne & Hr & Hrne & Hq & Ha & Hacc
        & Ht & Htne & H1 & H2 & H3 & H4).
  simpl in *. injection Hq as <- <-. simpl in *. injection Ht as <-.
  destruct (nrqlQueryPropsAvailable_cases
              {| SankeyView.dimensionLeft := left; SankeyView.dimensionRight := right;
                 SankeyView.nrqlQueries :=
                   Some ({| SankeyView.accountId := account;
                            SankeyView.query := Js.Str (before +:+ text +:+ after) |}
                         :: rest);
                 SankeyView.showTable := table |}) as (ok' & Hrun' & Hiff').
  rewrite Hrun'. f_equal. apply Hiff'.
  eexists l, r, _, rest, acc, _. simpl.
  split_and!; try done; try (by apply occursIn_grow).
  destruct before; [|done]. simpl. by destruct text.
Qed.

Lemma nrqlQueryPropsAvailable_grows_example :
  SankeyView.nrqlQueryPropsAvailable
    {| SankeyView.dimensionLeft := Js.Str "src_geo";
       SankeyView.dimensionRight := Js.Str "dst_geo";
       SankeyView.nrqlQueries :=
         Some [ {| SankeyView.accountId := Some 1%float;
                   SankeyView.query := Js.Str "src_geo dst_geo in_bytes sample_rate" |} ];
       SankeyView.showTable := false |} = Js.Ok true
  ∧ SankeyView.nrqlQueryPropsAvailable
      {| SankeyView.dimensionLeft := Js.Str "src_geo";
         SankeyView.dimensionRight := Js.Str "dst_geo";
         SankeyView.nrqlQueries :=
           Some [ {| SankeyView.accountId := Some 1%float;
                     SankeyView.query :=
                       Js.Str ("FROM KFlow SELECT "
                               +:+ "src_geo dst_geo in_bytes sample_rate"
                               +:+ " LIMIT 1000") |} ];
         SankeyView.showTable := false |} = Js.Ok true.
Proof.
  assert (SankeyView.nrqlQueryPropsAvailable
            {| SankeyView.dimensionLeft := Js.Str "src_geo";
               SankeyView.dimensionRight := Js.Str "dst_geo";
               SankeyView.nrqlQueries :=
                 Some [ {| SankeyView.accountId := Some 1%float;
                           SankeyView.query :=
                             Js.Str "src_geo dst_geo in_bytes sample_rate" |} ];
               SankeyView.showTable := false |} = Js.Ok true) as Hok.
  { vm_compute. reflexivity. }
  split; [exact Hok|].
  exact (nrqlQueryPropsAvailable_grows (Js.Str "src_geo") (Js.Str "dst_geo") (Some 1%float)
           "src_geo dst_geo in_bytes sample_rate" "FROM KFlow SELECT " " LIMIT 1000"
           [] false Hok).
Defined.

Section Render.




End Render.


(* ===================================================================== *)
(** * Rendering the map again                                              *)
(* ===================================================================== *)

Section Rerender.

Implicit Types (t : GetMapData.Tables) (st : KentikMap.State) (row : KentikMap.Row).

(** [dataMap] after a run, key by key. *)
Lemma dataMap_after (data : list KentikMap.Row) i st :
  ∃ features st',
    KentikMap.transformFrom i data st = Js.Ok (features, st')
    ∧ ∀ key, KentikMap.dataMap st' !! key
             = from_option Some (KentikMap.dataMap st !! key) (IndexSpec.entryOf i data key).
Proof.
  revert i st. induction data as [|row data IH]; intros i st.
  - by eexists _, _.
  - cbn [KentikMap.transformFrom IndexSpec.entryOf].
    destruct (transformItem_spec i row st) as (t' & -> & _). cbn [Js.bind snd fst].
    destruct (IH (S i) {| KentikMap.tables := t';
                          KentikMap.dataMap :=
                            if Js.truthy (KentikMap.countryOf row)
                            then <[Js.toString (KentikMap.countryOf row) :=
                                     {| KentikMap.item := row; KentikMap.index := i;
                                        KentikMap.sum := KentikMap.sumOf row |}]>
                                 (KentikMap.dataMap st)
                            else KentikMap.dataMap st |})
      as (features & st' & -> & Hkeys).
    cbn [Js.bind snd fst]. eexists _, _. split; [reflexivity|].
    intros key. rewrite Hkeys. cbn [KentikMap.dataMap].
    destruct (IndexSpec.entryOf (S i) data key) as [entry|]; [done|]. cbn [from_option].
    destruct (Js.truthy (KentikMap.countryOf row)); [|done]. cbn [andb].
    destruct (decide (Js.toString (KentikMap.countryOf row) = key)) as [<-|Hne].
    + rewrite bool_decide_eq_true_2 by done. by rewrite lookup_insert_eq.
    + rewrite bool_decide_eq_false_2 by done. by rewrite lookup_insert_ne.
Qed.

(** What a lookup by a truthy string does to the tables. *)
Lemma getCountryMapData_settles (s : string) t :
  Js.truthy (Js.Str s) = true →
  ∃ r t',
    GetMapData.getCountryMapData (Js.Str s) t = Js.Ok (r, t')
    ∧ IndexSpec.settled t' (Js.string_toLowerCase s)
    ∧ (∀ code, IndexSpec.settled t code → IndexSpec.settled t' code)
    ∧ (IndexSpec.settled t (Js.string_toLowerCase s) → t' = t).
Proof.
  intros Ht. rewrite getCountryMapData_string, Ht. unfold MapSpec.recordOf.
  destruct (GetMapData.countryData t !! Js.string_toLowerCase s) as [stored|] eqn:E;
    cbn [fmap option_fmap option_map].
  - eexists _, _. split; [reflexivity|]. split_and!.
    + intros stored'. cbn [GetMapData.countryData GetMapData.countryBounds].
      rewrite lookup_insert_eq. by intros [= <-].
    + intros code Hcode stored'. cbn [GetMapData.countryData GetMapData.countryBounds].
      destruct (decide (code = Js.string_toLowerCase s)) as [->|Hne].
      * rewrite lookup_insert_eq. by intros [= <-].
      * rewrite lookup_insert_ne by done. apply Hcode.
    + intros Hs. specialize (Hs stored E). destruct t as [cd cb], stored as [i n b].
      cbn in *. subst b. f_equal. by apply insert_id.
  - eexists _, _. split; [reflexivity|]. split_and!; [|done|done].
    intros stored. by rewrite E.
Qed.

Lemma transformItem_settles i row st :
  ∃ feature st',
    KentikMap.transformItem i row st = Js.Ok (feature, st')
    ∧ IndexSpec.settledFor (KentikMap.tables st') row
    ∧ (∀ code, IndexSpec.settled (KentikMap.tables st) code →
               IndexSpec.settled (KentikMap.tables st') code)
    ∧ (IndexSpec.settledFor (KentikMap.tables st) row →
       KentikMap.tables st' = KentikMap.tables st).
Proof.
  unfold KentikMap.transformItem, IndexSpec.settledFor.
  destruct (Js.truthy (KentikMap.countryOf row)) eqn:Ht.
  - apply truthy_Str in Ht as Hs. destruct Hs as (s & Hs & _). rewrite Hs in *.
    destruct (getCountryMapData_settles s (KentikMap.tables st) Ht)
      as (r & t' & -> & Hnow & Hkeep & Hsame).
    cbn [Js.bind fst snd]. eexists _, _. split; [reflexivity|].
    cbn [KentikMap.tables Js.toString]. split_and!; [done | done |]. intros H. by apply Hsame, H.
  - eexists _, _. split; [reflexivity|]. by split_and!.
Qed.

(** A run leaves the record of every code it looked up settled. *)
Lemma transformFrom_settles (data : list KentikMap.Row) i st :
  ∃ features st',
    KentikMap.transformFrom i data st = Js.Ok (features, st')
    ∧ (∀ code, IndexSpec.settled (KentikMap.tables st) code →
               IndexSpec.settled (KentikMap.tables st') code)
    ∧ Forall (IndexSpec.settledFor (KentikMap.tables st')) data.
Proof.
  revert i st. induction data as [|row data IH]; intros i st.
  - by eexists _, _.
  - cbn [KentikMap.transformFrom].
    destruct (transformItem_settles i row st) as (feature & st1 & -> & Hnow & Hkeep & _).
    cbn [Js.bind fst snd].
    destruct (IH (S i) st1) as (features & st2 & -> & Hkeep' & Hall).
    cbn [Js.bind fst snd]. eexists _, _. split; [reflexivity|]. split.
    + intros code Hcode. by apply Hkeep', Hkeep.
    + constructor; [|done]. intros Ht. by apply Hkeep', Hnow.
Qed.

(** A run over rows whose records are settled writes nothing new to the
    tables. *)
Lemma transformFrom_settled (data : list KentikMap.Row) i st :
  Forall (IndexSpec.settledFor (KentikMap.tables st)) data →
  ∃ features st',
    KentikMap.transformFrom i data st = Js.Ok (features, st')
    ∧ KentikMap.tables st' = KentikMap.tables st.
Proof.
  revert i st. induction data as [|row data IH]; intros i st Hall.
  - by eexists _, _.
  - cbn [KentikMap.transformFrom]. inversion Hall as [|? ? Hrow Hrest]; subst.
    destruct (transformItem_settles i row st) as (feature & st1 & -> & _ & _ & Hsame).
    cbn [Js.bind fst snd]. specialize (Hsame Hrow).
    destruct (IH (S i) st1) as (features & st2 & -> & Hsame'); [by rewrite Hsame|].
    cbn [Js.bind fst snd]. eexists _, _. split; [reflexivity|]. by rewrite Hsame'.
Qed.

End Rerender.

(** X27.  Rendering the same batch again changes nothing: [transformData]
    gives the same features the second time, and it leaves the tables
    and [dataMap] as the first call left them. *)
Theorem transformData_idempotent (data : list KentikMap.Row) (st : KentikMap.State) :
  ∃ features st',
    KentikMap.transformData data st = Js.Ok (features, st')
    ∧ KentikMap.transformData data st' = Js.Ok (features, st').
Proof.
  unfold KentikMap.transformData.
  destruct (transformFrom_features data 0 st (KentikMap.tables st))
    as (st1 & Hrun & Hrec); [done|].
  destruct (transformFrom_settles data 0 st) as (fs & st1' & Hrun' & _ & Hall).
  rewrite Hrun in Hrun'. injection Hrun' as <- <-.
  destruct (dataMap_after data 0 st) as (fs & st1' & Hrun' & Hkeys).
  rewrite Hrun in Hrun'. injection Hrun' as <- <-.
  exists (MapSpec.featureOf (KentikMap.tables st) <$> data), st1. split; [done|].
  destruct (transformFrom_features data 0 st1 (KentikMap.tables st) Hrec)
    as (st2 & Hrun2 & _).
  rewrite Hrun2. do 2 f_equal.
  destruct (transformFrom_settled data 0 st1 Hall) as (fs & st2' & Hrun' & Htables).
  rewrite Hrun2 in Hrun'. injection Hrun' as <- <-.
  destruct (dataMap_after data 0 st1) as (fs & st2' & Hrun' & Hkeys').
  rewrite Hrun2 in Hrun'. injection Hrun' as <- <-.
  destruct st1 as [t1 m1], st2 as [t2 m2]. cbn in *. subst t2. f_equal.
  apply map_eq. intros key. rewrite Hkeys', Hkeys.
  by destruct (IndexSpec.entryOf 0 data key).
Qed.

(* ===================================================================== *)
(** * What the map component shows                                         *)
(* ===================================================================== *)

Section MapScreen.

Lemma trafficDirectionOf_truthy (props : MapView.ScreenProps) :
  Js.truthy (Js.Str (MapView.trafficDirectionOf props)) = true.
Proof.
  unfold MapView.trafficDirectionOf, Js.or_else.
  destruct (Js.truthy (MapView.trafficDirection props)) eqn:E; [|done].
  by destruct (MapView.trafficDirection props) as [| |[|c s]].
Qed.

End MapScreen.

(** X28.  [render] of the map never raises, and it shows the empty state
    exactly when the account id is missing, zero or NaN: the traffic
    direction has no part in it, since a missing or empty one is
    replaced by ["dst_geo"] before it is tested.  The tables and the
    index are touched only when the map itself is drawn: not in the
    empty state, not while the query is pending, and not after it
    failed. *)
Theorem map_render_empty_state_iff (props : MapView.ScreenProps) (height : float)
    (q : MapView.QueryState) (st : KentikMap.State) :
  ∃ view st',
    MapView.render props height q st = Js.Ok (view, st')
    ∧ (view = MapView.EmptyState
       ↔ from_option JsNumber.truthy false (MapView.accountId props) = false)
    ∧ (view = MapView.EmptyState ∨ MapView.loading q = true ∨ is_Some (MapView.error q) →
       st' = st).
Proof.
  unfold MapView.render, MapView.nrqlQueryPropsAvailable.
  rewrite trafficDirectionOf_truthy, andb_true_r.
  destruct (from_option JsNumber.truthy false (MapView.accountId props)); cbn [negb].
  2:{ eexists _, _. split; [reflexivity|]. by split. }
  destruct (MapView.loading q).
  { eexists _, _. split; [reflexivity|]. by split. }
  destruct (MapView.error q) as [message|].
  { eexists _, _. split; [reflexivity|]. by split. }
  destruct (transformFrom_features (MapView.data q) 0 st (KentikMap.tables st))
    as (st' & Hrun & _); [done|].
  unfold MapView.renderMap, KentikMap.transformData. rewrite Hrun. cbn [Js.bind fst snd].
  eexists _, _. split; [reflexivity|]. split; [done|].
  intros [?|[?|[? ?]]]; done.
Qed.
